(** * IQSmart: lens calibration calculations

    A shallow embedding of the class [calculations] of
    [src/IQSmart/IQSmart.py] and the properties of its conversion
    functions.

    Numbers.  Python and NumPy floats are idealised as exact rationals
    ([Qc], the canonical rationals, whose equality is Leibniz equality).
    Rounding, [inf] and [nan] are therefore outside the model; the
    places where they change the control flow are written out:
    - Python's [/] on Python numbers raises [ZeroDivisionError] ([py_div]);
    - NumPy's [/] on NumPy scalars yields [inf] or [nan] and goes on
      ([np_div], whose outcome [NonFinite] marks a value the rationals do
      not have; it is not a Python exception);
    - [NA2IrisStep] looks recomputed focal lengths up by equality; these
      lines are written out on binary64 numbers as well.
    The arguments of the methods are Python numbers, as their annotations
    say; the results of [polyval] and the elements of [np.sort] are NumPy
    scalars. Where one function is called with both, it takes the [kind]
    of its argument.

    Exceptions.  A method that can raise returns a [res]: [Ret v] or
    [Raise e].  A method that mutates the object returns the outcome
    together with the object as the call leaves it, also when it raises.

    Calibration data.  [calData] is a Python dict with string keys and
    dynamically typed values ([pyval]).  A value of an unexpected shape is
    reported as [TypeError]. *)

From Stdlib Require Import QArith Qcanon Qcabs Lqa Sorted Floats.
From stdpp Require Import base option list list_monad strings gmap numbers.

Set Warnings "-register-all".
#[local] Open Scope Qc_scope.
#[local] Open Scope list_scope.

(** ** Exceptions *)

Inductive exn :=
| ZeroDivisionError
| IndexError
| KeyError
| TypeError
| ValueError
| OverflowError
| NonFinite.

Inductive res (A : Type) :=
| Ret (a : A)
| Raise (e : exn).
Arguments Ret {A} a.
Arguments Raise {A} e.

#[global] Instance exn_eq_dec : EqDecision exn.
Proof. solve_decision. Defined.
#[global] Instance res_eq_dec `{EqDecision A} : EqDecision (res A).
Proof. solve_decision. Defined.

#[global] Instance res_ret : MRet res := @Ret.
#[global] Instance res_bind : MBind res := λ A B f m,
  match m with
  | Ret a => f a
  | Raise e => Raise e
  end.

Definition returns {A} (m : res A) : Prop := ∃ a, m = Ret a.

(** ** Numbers *)

(** The decimal literal [n / d], e.g. [0.005] is [dec 5 1000]. *)
Definition dec (n : Z) (d : positive) : Qc := Q2Qc (n # d).

(** Python's [int(x)]: truncation towards zero. *)
Definition int (x : Qc) : Qc := Qc_of_Z (Z.quot (Qnum x) (Zpos (Qden x))).

Definition py_div (a b : Qc) : res Qc :=
  if decide (b = 0) then Raise ZeroDivisionError else Ret (a / b).

Definition np_div (a b : Qc) : res Qc :=
  if decide (b = 0) then Raise NonFinite else Ret (a / b).

(** The run-time type of a number: a Python number, or a NumPy scalar.
    A quotient divides by Python's rule when both operands are Python
    numbers and by NumPy's rule when one of them is a NumPy scalar. *)
Inductive kind := python | numpy.

Definition div (k : kind) (a b : Qc) : res Qc :=
  match k with
  | python => py_div a b
  | numpy => np_div a b
  end.

Definition py_min (a b : Qc) : Qc := if decide (b < a) then b else a.
Definition py_max (a b : Qc) : Qc := if decide (a < b) then b else a.

(** ** Python lists *)

(** [l[i]], with Python's negative indices. *)
Definition getitem {A} (l : list A) (i : Z) : res A :=
  let n := Z.of_nat (length l) in
  let j := if decide (i < 0)%Z then (i + n)%Z else i in
  if decide (0 ≤ j < n)%Z
  then match l !! Z.to_nat j with
       | Some x => Ret x
       | None => Raise IndexError
       end
  else Raise IndexError.

(** [l.index(x)]: the first position of [x]. *)
Fixpoint list_index (x : Qc) (l : list Qc) : res Z :=
  match l with
  | [] => Raise ValueError
  | y :: l' => if decide (y = x) then Ret 0%Z
               else i ← list_index x l'; Ret (Z.succ i)
  end.

(** ** NumPy *)

(** [numpy.polynomial.polynomial.polyval(x, c)] for a scalar [x]: Horner's
    scheme from the last coefficient, [c0 = c[-1] + x*0] and then
    [c0 = c[-i] + c0*x]. An empty [c] fails at [c[-1]]. *)
Definition polyval (x : Qc) (c : list Qc) : res Qc :=
  match reverse c with
  | [] => Raise IndexError
  | cn :: cs => Ret (foldl (λ c0 ci, ci + c0 * x) (cn + x * 0) cs)
  end.

(** Insertion of an index into a list of indices sorted by key; an index
    goes after the indices of equal key, so that the sort is stable. *)
Fixpoint argsort_insert (key : Z → Qc) (i : Z) (sorted : list Z) : list Z :=
  match sorted with
  | [] => [i]
  | j :: rest => if decide (key i < key j) then i :: j :: rest
                 else j :: argsort_insert key i rest
  end.

(** [np.argsort(a)]: the indices that sort [a]. NumPy sorts arrays of
    fewer than 17 elements by insertion, which is stable; the model is the
    stable sort at every length. *)
Definition np_argsort (a : list Qc) : list Z :=
  let key i := default 0 (a !! Z.to_nat i) in
  foldl (λ sorted i, argsort_insert key i sorted) [] (seqZ 0 (Z.of_nat (length a))).

Fixpoint sort_insert (x : Qc) (sorted : list Qc) : list Qc :=
  match sorted with
  | [] => [x]
  | y :: rest => if decide (x < y) then x :: y :: rest
                 else y :: sort_insert x rest
  end.

(** [np.sort(a)] on numbers. *)
Definition np_sort (a : list Qc) : list Qc :=
  foldl (λ sorted x, sort_insert x sorted) [] a.

Fixpoint sortZ_insert (x : Z) (sorted : list Z) : list Z :=
  match sorted with
  | [] => [x]
  | y :: rest => if decide (x < y)%Z then x :: y :: rest
                 else y :: sortZ_insert x rest
  end.

(** [np.sort(a)] on indices. *)
Definition np_sort_idx (a : list Z) : list Z :=
  foldl (λ sorted x, sortZ_insert x sorted) [] a.

(** [np.subtract(a, t)], [np.add(a, t)], [np.abs(a)] on a list of numbers. *)
Definition np_subtract (a : list Qc) (t : Qc) : list Qc := (λ v, v - t) <$> a.
Definition np_add (a : list Qc) (t : Qc) : list Qc := (λ v, v + t) <$> a.
Definition np_abs (a : list Qc) : list Qc := Qcabs <$> a.

(** [np.transpose] of a list of rows of equal length; of the empty list
    it is the empty array. *)
Fixpoint np_transpose (rows : list (list Qc)) : list (list Qc) :=
  match rows with
  | [] => []
  | r :: rs =>
      match rs with
      | [] => (λ x, [x]) <$> r
      | _ :: _ => zip_with cons r (np_transpose rs)
      end
  end.

(** The column [k] of a list of rows: [np.transpose(rows)[k]] for rows of
    one length. *)
Definition column (k : nat) (rows : list (list Qc)) : list Qc :=
  (λ r, default 0 (r !! k)) <$> rows.

(** The numeric routines of NumPy and SciPy that the code calls and that
    have no counterpart on the rationals.
    - [lstsq x y deg]: the least-squares solve inside
      [numpy.polynomial.polynomial.polyfit], the coefficients from degree 0;
    - [newton coef target]: [scipy.optimize.newton(merit, 20, args=(coef,
      target))] for the merit function [polyval(x, coef) - target]; [None]
      is the [RuntimeError] of a search that does not converge;
    - [np_tan], [np_arctan], [np_radians], [np_degrees];
    - [ndarray_eq_nil a]: the truth value of [a == []] for a NumPy array
      [a] of numbers, which depends on the release of NumPy: [False] with
      a warning in the older releases, [ValueError] for an array of two or
      more elements from NumPy 1.25 on and for every array from NumPy 2.2
      on. *)
Class Numerics := {
  lstsq : list Qc → list Qc → nat → list Qc;
  newton : list Qc → Qc → option Qc;
  ndarray_eq_nil : list Qc → res bool;
  np_tan : Qc → Qc;
  np_arctan : Qc → Qc;
  np_radians : Qc → Qc;
  np_degrees : Qc → Qc;
}.

(** [polyfit] returns one coefficient per degree from 0 to [deg]. *)
Definition lstsq_shape `{Numerics} : Prop :=
  ∀ x y deg, length (lstsq x y deg) = S deg.

(** [numpy.polynomial.polynomial.polyfit(x, y, deg)]: the arguments are
    checked ([x] not empty, [x] and [y] of one length), then solved. *)
Definition polyfit `{Numerics} (x y : list Qc) (deg : nat) : res (list Qc) :=
  match x with
  | [] => Raise TypeError
  | _ :: _ => if decide (length x = length y) then Ret (lstsq x y deg)
              else Raise TypeError
  end.

(** ** Calibration data *)

Inductive pyval :=
| PNum (q : Qc)
| PStr (s : string)
| PList (l : list pyval)
| PDict (d : gmap string pyval).

Definition as_num (v : pyval) : res Qc :=
  match v with PNum q => Ret q | _ => Raise TypeError end.
Definition as_list (v : pyval) : res (list pyval) :=
  match v with PList l => Ret l | _ => Raise TypeError end.
Definition as_dict (v : pyval) : res (gmap string pyval) :=
  match v with PDict d => Ret d | _ => Raise TypeError end.
Definition as_vec (v : pyval) : res (list Qc) :=
  l ← as_list v; mapM as_num l.
Definition as_mat (v : pyval) : res (list (list Qc)) :=
  l ← as_list v; mapM as_vec l.

(** [k in d.keys()] and [d[k]]. *)
Definition contains (d : gmap string pyval) (k : string) : bool :=
  bool_decide (is_Some (d !! k)).
Definition subscript (d : gmap string pyval) (k : string) : res pyval :=
  match d !! k with
  | Some v => Ret v
  | None => Raise KeyError
  end.

(** [d[k]] read as a number, a list of numbers, a list of coefficient
    lists, a nested dict. *)
Definition num_at (d : gmap string pyval) (k : string) : res Qc :=
  subscript d k ≫= as_num.
Definition vec_at (d : gmap string pyval) (k : string) : res (list Qc) :=
  subscript d k ≫= as_vec.
Definition mat_at (d : gmap string pyval) (k : string) : res (list (list Qc)) :=
  subscript d k ≫= as_mat.
Definition dict_at (d : gmap string pyval) (k : string) : res (gmap string pyval) :=
  subscript d k ≫= as_dict.

(** ** The class [calculations] *)

Definition INFINITY : Qc := Qc_of_Z 1000000.
Definition OD_MIN_DEFAULT : Qc := 2.
Definition COC_DEFAULT : Qc := dec 20 1000.

Definition OK : string := "OK".
Definition ERR_NO_CAL : string := "no cal data".
Definition ERR_FL_MIN : string := "FL min".
Definition ERR_FL_MAX : string := "FL max".
Definition ERR_OD_MIN : string := "OD min".
Definition ERR_OD_MAX : string := "OD max".
Definition ERR_OD_VALUE : string := "OD value".
Definition ERR_NA_MIN : string := "NA min".
Definition ERR_NA_MAX : string := "NA max".
Definition ERR_RANGE_MIN : string := "out of range-min".
Definition ERR_RANGE_MAX : string := "out of range-max".
Definition ERR_CALC : string := "calculation error".
Definition WARN_VALUE : string := "value warning".

Record calculations := {
  calData : gmap string pyval;
  COC : Qc;
  BFLCorrectionValues : list (list Qc);
  BFLCorrectionCoeffs : list Qc;
}.

(** [__init__] *)
Definition init : calculations :=
  {| calData := ∅; COC := COC_DEFAULT;
     BFLCorrectionValues := []; BFLCorrectionCoeffs := [] |}.

(** *** Support functions *)

(** [NA2FNum] is called by the user, with a Python number, and by
    [irisStep2FNum], with NumPy scalars. *)
Definition NA2FNum (k : kind) (NA : Qc) : res Qc := div k 1 (2 * NA).
Definition FNum2NA (fNum : Qc) : res Qc := py_div 1 (2 * fNum).

(** [interpolate] for a target of the kind [k]: the control points are
    Python numbers, so that the interpolation factor is a quotient by
    Python's rule for a Python target and by NumPy's rule for a NumPy
    target. *)
Definition interpolate_as (k : kind) (coefList : list (list Qc))
    (cp1List : list Qc) (cp1Target xValue : Qc) : res Qc :=
  if decide (length cp1List ≤ 1)%nat then
    c ← getitem coefList 0;
    polyval cp1Target c
  else
    let valList := np_subtract cp1List cp1Target in
    let valIdx := np_argsort (np_abs valList) in
    i0 ← getitem valIdx 0;
    lowerCoeffs ← getitem coefList i0;
    i1 ← getitem valIdx 1;
    upperCoeffs ← getitem coefList i1;
    lowerValue ← polyval xValue lowerCoeffs;
    upperValue ← polyval xValue upperCoeffs;
    cpLower ← getitem cp1List i0;
    cpUpper ← getitem cp1List i1;
    interpolation_factor ← div k (cp1Target - cpLower) (cpUpper - cpLower);
    Ret (lowerValue + interpolation_factor * (upperValue - lowerValue)).

(** [interpolate] for a target that is a Python number, as the arguments
    of the methods are. *)
Definition interpolate (coefList : list (list Qc)) (cp1List : list Qc)
    (cp1Target xValue : Qc) : res Qc :=
  interpolate_as python coefList cp1List cp1Target xValue.

(** A [for] loop over a list that threads the loop variables and stops at
    the first exception. *)
Fixpoint foldM {A B} (f : A → B → res A) (a : A) (l : list B) : res A :=
  match l with
  | [] => Ret a
  | x :: l' => a' ← f a x; foldM f a' l'
  end.

(** *** Setup functions *)

Definition loadData (self : calculations) (data : gmap string pyval)
    : string * calculations :=
  let self := {| calData := data; COC := COC self;
                 BFLCorrectionValues := BFLCorrectionValues self;
                 BFLCorrectionCoeffs := BFLCorrectionCoeffs self |} in
  if decide (data = ∅) then (ERR_NO_CAL, self) else (OK, self).

Definition loadCOC (self : calculations) (COC : Qc) : string * calculations :=
  let self := {| calData := calData self; COC := COC;
                 BFLCorrectionValues := BFLCorrectionValues self;
                 BFLCorrectionCoeffs := BFLCorrectionCoeffs self |} in
  if decide (COC < dec 5 1000 ∨ dec 100 1000 < COC) then (WARN_VALUE, self)
  else (OK, self).

(** *** Motor steps to engineering units *)

Definition zoomStep2FL (self : calculations) (zoomStep : Qc)
    : res (Qc * string * Qc * Qc) :=
  if negb (contains (calData self) "FL") then Ret (0, ERR_NO_CAL, 0, 0) else
  fl ← dict_at (calData self) "FL";
  coefInv ← mat_at fl "coefInv";
  coef ← getitem coefInv 0;
  FL ← polyval zoomStep coef;
  flMin ← num_at (calData self) "flMin";
  flMax ← num_at (calData self) "flMax";
  let err := if decide (FL < flMin) then ERR_FL_MIN
             else if decide (flMax < FL) then ERR_FL_MAX
             else OK in
  Ret (FL, err, flMin, flMax).

Definition DONT_CALC_MAX_OVER : Qc := Qc_of_Z 100.
Definition DONT_CALC_MIN_UNDER : Qc := Qc_of_Z 400.

(** The loop of [focusStep2OD] that evaluates every tracking curve at the
    zoom step and adds the BFL correction. *)
Definition focusStep2OD_focusStepList (coefList : list (list Qc))
    (cp1List : list Qc) (zoomStep BFL : Qc) : res (list Qc) :=
  mapM (λ cp1, c ← getitem coefList cp1;
               v ← polyval zoomStep c;
               Ret (v + BFL))
       (seqZ 0 (Z.of_nat (length cp1List))).

Definition focusStep2OD `{Numerics} (self : calculations)
    (focusStep zoomStep BFL : Qc) : res (Qc * string * Qc * Qc) :=
  if negb (contains (calData self) "tracking") then Ret (0, ERR_NO_CAL, 0, 0) else
  tracking ← dict_at (calData self) "tracking";
  cp1List ← vec_at tracking "cp1";
  coefList ← mat_at tracking "coef";
  focusStepList ← focusStep2OD_focusStepList coefList cp1List zoomStep BFL;
  ODMin ← (if contains (calData self) "odMin" then num_at (calData self) "odMin"
           else Ret OD_MIN_DEFAULT);
  ODMax ← (if contains (calData self) "odMax" then num_at (calData self) "odMax"
           else Ret INFINITY);
  first ← getitem focusStepList 0;
  if decide (first + DONT_CALC_MAX_OVER < focusStep) then
    Ret (0, ERR_OD_MAX, ODMin, ODMax)
  else
    last ← getitem focusStepList (-1);
    if decide (focusStep < last - DONT_CALC_MIN_UNDER) then
      Ret (0, ERR_OD_MIN, ODMin, ODMax)
    else
      coef ← polyfit focusStepList cp1List 3;
      v ← polyval focusStep coef;
      OD ← np_div (Qc_of_Z 1000) v;
      let err := if decide (OD < 0) then ERR_OD_MAX
                 else if decide (OD < ODMin) then ERR_OD_MIN
                 else OK in
      Ret (OD, err, ODMin, ODMax).

Definition irisStep2NA (self : calculations) (irisStep FL : Qc)
    (rangeLimit : bool) : res (Qc * string * Qc * Qc) :=
  if negb (contains (calData self) "AP") then Ret (0, ERR_NO_CAL, 0, 0) else
  ap ← dict_at (calData self) "AP";
  coef ← mat_at ap "coef";
  cp1 ← vec_at ap "cp1";
  NA ← interpolate coef cp1 FL irisStep;
  irisSteps ← num_at (calData self) "irisSteps";
  NAMin ← interpolate coef cp1 FL irisSteps;
  NAMax ← interpolate coef cp1 FL 0;
  fnum ← num_at (calData self) "fnum";
  NAMaxCal ← py_div 1 (2 * fnum);
  let NAMax := py_min NAMax NAMaxCal in
  let NAMin := py_max NAMin (dec 1 100) in
  if decide (NAMax < NA) then
    Ret (if rangeLimit then NAMax else NA, ERR_NA_MAX, NAMin, NAMax)
  else if decide (NA < NAMin) then
    Ret (if rangeLimit then NAMin else NA, ERR_NA_MIN, NAMin, NAMax)
  else
    Ret (NA, OK, NAMin, NAMax).

(** The three apertures are NumPy scalars, or one of the Python numbers
    [1/(2 fnum)] and [0.01], which are not zero and for which the two rules
    of division agree. *)
Definition irisStep2FNum (self : calculations) (irisStep FL : Qc)
    : res (Qc * string * Qc * Qc) :=
  if negb (contains (calData self) "AP") then Ret (0, ERR_NO_CAL, 0, 0) else
  '(NA, err, NAMin, NAMax) ← irisStep2NA self irisStep FL true;
  fNum ← NA2FNum numpy NA;
  fNumMin ← NA2FNum numpy NAMin;
  fNumMax ← NA2FNum numpy NAMax;
  Ret (fNum, err, fNumMin, fNumMax).

(** *** Engineering units to motor steps *)

Definition FL2ZoomStep (self : calculations) (FL : Qc) : res (Qc * string) :=
  if negb (contains (calData self) "FL") then Ret (0, ERR_NO_CAL) else
  fl ← dict_at (calData self) "FL";
  coefs ← mat_at fl "coef";
  coef ← getitem coefs 0;
  v ← polyval FL coef;
  let zoomStep := int v in
  zoomStepMax ← num_at (calData self) "zoomSteps";
  if decide (zoomStep < 0) then Ret (0, ERR_RANGE_MIN)
  else if decide (zoomStepMax < zoomStep) then Ret (zoomStepMax, ERR_RANGE_MAX)
  else Ret (zoomStep, OK).

Definition OD2FocusStep (self : calculations) (OD zoomStep BFL : Qc)
    : res (Qc * string) :=
  if negb (contains (calData self) "tracking") then Ret (0, ERR_NO_CAL) else
  invOD ← py_div (Qc_of_Z 1000) OD;
  tracking ← dict_at (calData self) "tracking";
  coef ← mat_at tracking "coef";
  cp1 ← vec_at tracking "cp1";
  v ← interpolate coef cp1 invOD zoomStep;
  let focusStep := int v + BFL in
  focusStepMax ← num_at (calData self) "focusSteps";
  if decide (focusStep < 0) then Ret (0, ERR_RANGE_MIN)
  else if decide (focusStepMax < focusStep) then Ret (focusStepMax, ERR_RANGE_MAX)
  else Ret (focusStep, OK).

Definition ODFL2FocusStep (self : calculations) (OD FL BFL : Qc)
    : res (Qc * string) :=
  if decide (calData self = ∅) then Ret (0, ERR_NO_CAL) else
  '(zoomStep, _err) ← FL2ZoomStep self FL;
  OD2FocusStep self OD zoomStep BFL.

(** The two calibrated focal lengths closest to [FL], in the order of the
    calibration list: [np.add(np.array(FLList)[np.sort(FLIdx[:2])], FL)]. *)
Definition NA2IrisStep_closestFL (cp1 : list Qc) (FL : Qc) : res (list Qc) :=
  let FLList := np_subtract cp1 FL in
  let FLIdx := np_argsort (np_abs FLList) in
  selected ← mapM (getitem FLList) (np_sort_idx (take 2 FLIdx));
  Ret (np_add selected FL).

(** One turn of the loop of [NA2IrisStep] over [closestFL]; the loop
    variables are [err] and [stepValueList]. *)
Definition NA2IrisStep_body `{Numerics} (self : calculations) (NA : Qc)
    (vars : string * list Qc) (f : Qc) : res (string * list Qc) :=
  let '(err, stepValueList) := vars in
  ap ← dict_at (calData self) "AP";
  cp1 ← vec_at ap "cp1";
  idx ← list_index f cp1;
  coefs ← mat_at ap "coef";
  coef ← getitem coefs idx;
  NAMax ← polyval 0 coef;
  if decide (NA < NAMax) then
    match newton coef NA with
    | Some stepValue => Ret (err, stepValueList ++ [stepValue])
    | None =>
        stepValue ← num_at (calData self) "irisSteps";
        Ret (ERR_NA_MIN, stepValueList ++ [stepValue])
    end
  else Ret (ERR_NA_MAX, stepValueList ++ [0]).

(** The interpolation factor is a quotient of NumPy scalars: a zero
    denominator gives [nan] (for [0/0], and for [inf * 0]) or [inf], and
    [int] raises [ValueError] on the first and [OverflowError] on the
    second. *)
Definition NA2IrisStep `{Numerics} (self : calculations) (NA FL : Qc)
    : res (Qc * string) :=
  if negb (contains (calData self) "AP") then Ret (0, ERR_NO_CAL) else
  ap ← dict_at (calData self) "AP";
  cp1 ← vec_at ap "cp1";
  closestFL ← NA2IrisStep_closestFL cp1 FL;
  '(err, stepValueList) ← foldM (NA2IrisStep_body self NA) (OK, []) closestFL;
  c0 ← getitem closestFL 0;
  c1 ← getitem closestFL 1;
  s0 ← getitem stepValueList 0;
  s1 ← getitem stepValueList 1;
  if decide (c1 - c0 = 0) then
    if decide (FL - c0 = 0 ∨ s1 - s0 = 0) then Raise ValueError
    else Raise OverflowError
  else
    let interpolationFactor := (FL - c0) / (c1 - c0) in
    Ret (int (s0 + interpolationFactor * (s1 - s0)), err).

Definition fNum2IrisStep `{Numerics} (self : calculations) (fNum FL : Qc)
    : res (Qc * string) :=
  if negb (contains (calData self) "AP") then Ret (0, ERR_NO_CAL) else
  NA ← FNum2NA fNum;
  NA2IrisStep self NA FL.

(** *** The lookups of [NA2IrisStep] in binary64

    [NA2IrisStep] looks the two closest focal lengths up in the
    calibration list with [cp1.index(f)], and [f] is recomputed from the
    control point [cp] as [(cp - FL) + FL]. In the rationals that is [cp];
    the machine rounds the difference and the sum. The lines from
    [np.subtract] to the [index] calls are written out once more on the
    binary64 numbers of the machine. *)

Fixpoint argsort_insert_binary64 (key : Z → float) (i : Z) (sorted : list Z)
    : list Z :=
  match sorted with
  | [] => [i]
  | j :: rest => if PrimFloat.ltb (key i) (key j) then i :: j :: rest
                 else j :: argsort_insert_binary64 key i rest
  end.

Definition np_argsort_binary64 (a : list float) : list Z :=
  let key i := default PrimFloat.zero (a !! Z.to_nat i) in
  foldl (λ sorted i, argsort_insert_binary64 key i sorted) []
        (seqZ 0 (Z.of_nat (length a))).

(** [l.index(x)] with the equality of floats. *)
Fixpoint list_index_binary64 (x : float) (l : list float) : res Z :=
  match l with
  | [] => Raise ValueError
  | y :: l' => if PrimFloat.eqb y x then Ret 0%Z
               else i ← list_index_binary64 x l'; Ret (Z.succ i)
  end.

Definition NA2IrisStep_closestFL_binary64 (cp1 : list float) (FL : float)
    : res (list float) :=
  let FLList := (λ v, PrimFloat.sub v FL) <$> cp1 in
  let FLIdx := np_argsort_binary64 (PrimFloat.abs <$> FLList) in
  selected ← mapM (getitem FLList) (np_sort_idx (take 2 FLIdx));
  Ret ((λ v, PrimFloat.add v FL) <$> selected).

(** The [index] calls of the loop over [closestFL], in their order; the
    first that raises ends the loop. *)
Definition NA2IrisStep_lookups_binary64 (cp1 : list float) (FL : float)
    : res (list Z) :=
  closestFL ← NA2IrisStep_closestFL_binary64 cp1 FL;
  mapM (λ f, list_index_binary64 f cp1) closestFL.

(** The same lookups in the rationals. *)
Definition NA2IrisStep_lookups (cp1 : list Qc) (FL : Qc) : res (list Z) :=
  closestFL ← NA2IrisStep_closestFL cp1 FL;
  mapM (λ f, list_index f cp1) closestFL.

(** *** Angle of view, field of view, depth of field *)

(** [calcAOV] for a focal length of the kind [k]: the user calls it with
    a Python number and [AOV2MotorSteps] with the elements of [np.sort]. *)
Definition calcAOV_as (k : kind) (self : calculations) (sensorWd FL : Qc)
    : res (Qc * string) :=
  if negb (contains (calData self) "dist") then Ret (0, ERR_NO_CAL) else
  let semiWd := sensorWd / 2 in
  dist ← dict_at (calData self) "dist";
  coef ← mat_at dist "coef";
  cp1 ← vec_at dist "cp1";
  v ← interpolate_as k coef cp1 FL semiWd;
  let semiAOV := Qcabs v in
  Ret (2 * semiAOV, OK).

Definition calcAOV (self : calculations) (sensorWd FL : Qc) : res (Qc * string) :=
  calcAOV_as python self sensorWd FL.

Definition calcFOV `{Numerics} (self : calculations) (sensorWd FL OD : Qc)
    : res (Qc * string) :=
  if negb (contains (calData self) "dist") then Ret (0, ERR_NO_CAL) else
  '(AOV, _err) ← calcAOV self sensorWd FL;
  Ret (2 * OD * np_tan (np_radians (AOV / 2)), OK).

Definition calcDOF (self : calculations) (irisStep FL OD : Qc)
    : res (Qc * string * Qc * Qc) :=
  if negb (contains (calData self) "iris") then Ret (0, ERR_NO_CAL, 0, 0) else
  if decide (INFINITY ≤ OD) then Ret (INFINITY, OK, INFINITY, INFINITY) else
  iris ← dict_at (calData self) "iris";
  coef ← mat_at iris "coef";
  cp1 ← vec_at iris "cp1";
  shortDiameter ← interpolate coef cp1 FL irisStep;
  magnification ← py_div (FL / Qc_of_Z 1000) OD;
  blur ← np_div (COC self) (shortDiameter * magnification);
  near ← np_div OD (1 + blur);
  let ODMin := py_min near INFINITY in
  blur' ← np_div (COC self) (shortDiameter * magnification);
  far ← np_div OD (1 - blur');
  let ODMax := py_min far INFINITY in
  let ODMax := if decide (ODMax < 0) then INFINITY else ODMax in
  let DOF := if decide (ODMax = INFINITY) then INFINITY else ODMax - ODMin in
  Ret (DOF, OK, ODMin, ODMax).

Definition calcFullDOF (self : calculations) (irisStep FL OD : Qc)
    : res (Qc * string) :=
  if negb (contains (calData self) "iris") then Ret (0, ERR_NO_CAL) else
  iris ← dict_at (calData self) "iris";
  coef ← mat_at iris "coef";
  cp1 ← vec_at iris "cp1";
  shortDiameter ← interpolate coef cp1 FL irisStep;
  DOF ← np_div (2 * ((OD * Qc_of_Z 1000) * (OD * Qc_of_Z 1000)) * COC self)
               (FL * shortDiameter);
  Ret (DOF / Qc_of_Z 1000, OK).

(** [isinstance(v, str)] and [v == 0] on a dynamically typed argument. *)
Definition is_str (v : pyval) : bool :=
  match v with PStr _ => true | _ => false end.
Definition is_zero (v : pyval) : bool :=
  match v with PNum q => bool_decide (q = 0) | _ => false end.

(** [FOV] and [OD] may be strings, which stand for an unknown value. *)
Definition FOV2AOV `{Numerics} (FOV OD : pyval) : res Qc :=
  if is_str FOV || is_str OD || is_zero OD || is_zero FOV then Ret 0 else
  fov ← as_num FOV;
  od ← as_num OD;
  Ret (np_degrees (2 * np_arctan ((fov / 2) / od))).

(** One turn of the loop of [AOV2MotorSteps] over the sorted focal
    lengths; the loop variables are [FLLower] and [FLUpper], [None] or a
    pair of a focal length and its angle of view. *)
Definition AOV2MotorSteps_body (self : calculations) (AOV IH : Qc)
    (vars : option (Qc * Qc) * option (Qc * Qc)) (FL : Qc)
    : res (option (Qc * Qc) * option (Qc * Qc)) :=
  let '(FLLower, FLUpper) := vars in
  '(AOVMax, _err) ← calcAOV_as numpy self IH FL;
  if decide (AOV < AOVMax) then Ret (Some (FL, AOVMax), FLUpper)
  else match FLUpper with
       | None => Ret (FLLower, Some (FL, AOVMax))
       | Some _ => Ret (FLLower, FLUpper)
       end.

(** [pair[i]] on a loop variable that may still be [None]. *)
Definition unpack (pair : option (Qc * Qc)) : res (Qc * Qc) :=
  match pair with
  | Some p => Ret p
  | None => Raise TypeError
  end.

Definition AOV2MotorSteps (self : calculations) (AOV IH : Qc) (OD : pyval)
    (BFL : Qc) : res (Qc * Qc * Qc * string) :=
  if negb (contains (calData self) "dist") then Ret (0, 0, 0, ERR_NO_CAL) else
  dist ← dict_at (calData self) "dist";
  cp1 ← vec_at dist "cp1";
  let FLList := np_sort cp1 in
  '(FLLower, FLUpper) ← foldM (AOV2MotorSteps_body self AOV IH) (None, None) FLList;
  '(FLLower, FLUpper) ←
    match FLLower with
    | None =>
        FL ← getitem FLList 1;
        '(AOVMax, _err) ← calcAOV_as numpy self IH FL;
        Ret (FLUpper, Some (FL, AOVMax))
    | Some _ => Ret (FLLower, FLUpper)
    end;
  '(FLLower, FLUpper) ←
    match FLUpper with
    | None =>
        FL ← getitem FLList (-2);
        '(AOVMax, _err) ← calcAOV_as numpy self IH FL;
        Ret (Some (FL, AOVMax), FLLower)
    | Some _ => Ret (FLLower, FLUpper)
    end;
  '(FLLower0, FLLower1) ← unpack FLLower;
  '(FLUpper0, FLUpper1) ← unpack FLUpper;
  interpolationFactor ← np_div (AOV - FLLower1) (FLUpper1 - FLLower1);
  let FLValue := FLLower0 + interpolationFactor * (FLUpper0 - FLLower0) in
  flMin ← num_at (calData self) "flMin";
  err ← (if decide (FLValue < flMin) then Ret ERR_RANGE_MIN
         else flMax ← num_at (calData self) "flMax";
              Ret (if decide (flMax < FLValue) then ERR_RANGE_MAX else OK));
  '(zoomStep, _err) ← FL2ZoomStep self FLValue;
  if is_str OD then Ret (0, zoomStep, FLValue, ERR_OD_VALUE) else
  od ← as_num OD;
  if decide (od < 0) then Ret (0, zoomStep, FLValue, ERR_OD_VALUE) else
  '(focusStep, _err) ← OD2FocusStep self od zoomStep BFL;
  Ret (focusStep, zoomStep, FLValue, err).

Definition FOV2MotorSteps `{Numerics} (self : calculations) (FOV : pyval)
    (IH : Qc) (OD : pyval) (BFL : Qc) : res (Qc * Qc * Qc * string) :=
  if negb (contains (calData self) "dist") then Ret (0, 0, 0, ERR_NO_CAL) else
  AOV ← FOV2AOV FOV OD;
  if decide (AOV = 0) then Ret (0, 0, 0, ERR_CALC) else
  AOV2MotorSteps self AOV IH OD BFL.

(** *** Back focal length correction *)

(** [self.BFLCorrectionCoeffs == []]: the coefficients are the Python
    list [[]] of [__init__] until the first fit, which is equal to [[]], and
    a NumPy array from then on, which is never empty and is compared by
    NumPy. *)
Definition BFLCorrectionCoeffs_eq_nil `{Numerics} (self : calculations)
    : res bool :=
  match BFLCorrectionCoeffs self with
  | [] => Ret true
  | c :: coeffs => ndarray_eq_nil (c :: coeffs)
  end.

Definition BFLCorrection `{Numerics} (self : calculations) (FL OD : Qc)
    : res Qc :=
  empty ← BFLCorrectionCoeffs_eq_nil self;
  if empty : bool then Ret 0 else
  correctionValue ← polyval FL (BFLCorrectionCoeffs self);
  Ret (int correctionValue).

Definition set_BFLCorrectionValues (self : calculations)
    (values : list (list Qc)) : calculations :=
  {| calData := calData self; COC := COC self;
     BFLCorrectionValues := values;
     BFLCorrectionCoeffs := BFLCorrectionCoeffs self |}.

Definition set_BFLCorrectionCoeffs (self : calculations)
    (coeffs : list Qc) : calculations :=
  {| calData := calData self; COC := COC self;
     BFLCorrectionValues := BFLCorrectionValues self;
     BFLCorrectionCoeffs := coeffs |}.

(** The right-hand side of the assignment in [fitBFLCorrection]. *)
Definition fitBFLCorrection_coeffs `{Numerics} (values : list (list Qc))
    : res (list Qc) :=
  let xy := np_transpose values in
  if decide (length values = 1%nat) then getitem xy 1
  else if decide (length values ≤ 3)%nat then
    x ← getitem xy 0; y ← getitem xy 1; polyfit x y 1
  else
    x ← getitem xy 0; y ← getitem xy 1; polyfit x y 2.

Definition fitBFLCorrection `{Numerics} (self : calculations)
    : res unit * calculations :=
  match fitBFLCorrection_coeffs (BFLCorrectionValues self) with
  | Ret coeffs => (Ret (), set_BFLCorrectionCoeffs self coeffs)
  | Raise e => (Raise e, self)
  end.

Definition addBFLCorrection `{Numerics} (self : calculations)
    (focusStep FL OD : Qc) : res (list (list Qc)) * calculations :=
  match ODFL2FocusStep self OD FL 0 with
  | Raise e => (Raise e, self)
  | Ret (designFocusStep, _err) =>
      let self := set_BFLCorrectionValues self
        (BFLCorrectionValues self ++ [[FL; focusStep - designFocusStep; OD]]) in
      match fitBFLCorrection self with
      | (Ret _, self) => (Ret (BFLCorrectionValues self), self)
      | (Raise e, self) => (Raise e, self)
      end
  end.

Definition removeBFLCorrectionByIndex `{Numerics} (self : calculations)
    (idx : Z) : res (list (list Qc)) * calculations :=
  if decide (idx < 0 ∨ Z.of_nat (length (BFLCorrectionValues self)) ≤ idx)%Z
  then (Ret (BFLCorrectionValues self), self)
  else
    let self := set_BFLCorrectionValues self
      (delete (Z.to_nat idx) (BFLCorrectionValues self)) in
    match fitBFLCorrection self with
    | (Ret _, self) => (Ret (BFLCorrectionValues self), self)
    | (Raise e, self) => (Raise e, self)
    end.

(** ** Sequences of calls on one object *)

Inductive call :=
| call_loadData (data : gmap string pyval)
| call_loadCOC (COC : Qc)
| call_addBFLCorrection (focusStep FL OD : Qc)
| call_removeBFLCorrectionByIndex (idx : Z).

(** The object after a call, whether the call returned or raised. *)
Definition after `{Numerics} (self : calculations) (c : call) : calculations :=
  match c with
  | call_loadData data => (loadData self data).2
  | call_loadCOC COC => (loadCOC self COC).2
  | call_addBFLCorrection focusStep FL OD =>
      (addBFLCorrection self focusStep FL OD).2
  | call_removeBFLCorrectionByIndex idx =>
      (removeBFLCorrectionByIndex self idx).2
  end.

Definition after_all `{Numerics} (self : calculations) (cs : list call)
    : calculations :=
  foldl after self cs.

(** ** Sample data *)

(** Least squares by the normal equations, solved by Gauss-Jordan
    elimination: a stand-in for NumPy's solver that is exact where the
    equations have one solution. *)
Definition row_sub (c : Qc) (p r : list Qc) : list Qc :=
  zip_with (λ a b, a - c * b) r p.

Fixpoint gauss_jordan (steps k : nat) (m : list (list Qc)) : list (list Qc) :=
  match steps with
  | O => m
  | S steps' =>
      match list_find (λ r : list Qc, default 0 (r !! k) ≠ 0) (drop k m) with
      | None => gauss_jordan steps' (S k) m
      | Some (i, p) =>
          let p := Qcmult (/ default 0 (p !! k)) <$> p in
          let m := <[k := p]> (<[(k + i)%nat := default [] (m !! k)]> m) in
          let m := imap (λ j r, if decide (j = k) then r
                                else row_sub (default 0 (r !! k)) p r) m in
          gauss_jordan steps' (S k) m
      end
  end.

Definition Qcsum (l : list Qc) : Qc := foldr Qcplus 0 l.

Definition normal_equations (x y : list Qc) (deg : nat) : list (list Qc) :=
  (λ j, ((λ l, Qcsum ((λ xi, xi ^ (j + l)) <$> x)) <$> seq 0 (S deg))
        ++ [Qcsum (zip_with (λ xi yi, xi ^ j * yi) x y)])
  <$> seq 0 (S deg).

Definition sample_lstsq (x y : list Qc) (deg : nat) : list Qc :=
  let m := gauss_jordan (S deg) 0 (normal_equations x y deg) in
  (λ j, List.last (default [] (m !! j)) 0) <$> seq 0 (S deg).

(** The root of a polynomial of degree one; no other search converges. *)
Definition sample_newton (coef : list Qc) (target : Qc) : option Qc :=
  match coef with
  | [a; b] => if decide (b = 0) then None else Some ((target - a) / b)
  | _ => None
  end.

(** Rational stand-ins for the trigonometric functions, with 355/113 in
    the place of pi and the small-angle tangent; the comparison of an array
    with [[]] is that of NumPy 2.2. *)
#[local] Instance sample_numerics : Numerics := {|
  lstsq := sample_lstsq;
  newton := sample_newton;
  ndarray_eq_nil := λ _, Raise ValueError;
  np_tan := λ a, a;
  np_arctan := λ a, a;
  np_radians := λ a, a * dec 355 113 / Qc_of_Z 180;
  np_degrees := λ a, a * Qc_of_Z 180 / dec 355 113;
|}.

Definition nums (l : list Qc) : pyval := PList (PNum <$> l).
Definition curves (cp1 : list Qc) (coef : list (list Qc)) : pyval :=
  PDict {[ "cp1" := nums cp1; "coef" := PList (nums <$> coef) ]}.

(** A calibration data set of the documented shape. The focal length is
    [9 + zoomStep/100] and its inverse is exact. *)
Definition sample_calData : gmap string pyval :=
  {[ "zoomSteps" := PNum (Qc_of_Z 4000);
     "focusSteps" := PNum (Qc_of_Z 8000);
     "irisSteps" := PNum (Qc_of_Z 75);
     "flMin" := PNum (Qc_of_Z 9);
     "flMax" := PNum (Qc_of_Z 50);
     "odMin" := PNum 2;
     "fnum" := PNum (dec 14 10);
     "FL" := PDict {[ "coef" := PList [nums [Qc_of_Z (-900); Qc_of_Z 100]];
                      "coefInv" := PList [nums [Qc_of_Z 9; dec 1 100]] ]};
     "tracking" := curves [0; Qc_of_Z 100; Qc_of_Z 500]
                          [[Qc_of_Z 5000; dec 1 2];
                           [Qc_of_Z 4800; dec 1 2];
                           [Qc_of_Z 4000; dec 1 2]];
     "AP" := curves [Qc_of_Z 9; Qc_of_Z 50]
                    [[dec 1 3; dec (-1) 300]; [dec 1 4; dec (-1) 400]];
     "dist" := curves [Qc_of_Z 9; Qc_of_Z 50]
                      [[0; Qc_of_Z 5]; [0; 1]];
     "iris" := curves [Qc_of_Z 9; Qc_of_Z 50]
                      [[Qc_of_Z 6; dec (-1) 20]; [Qc_of_Z 5; dec (-1) 20]] ]}.

Definition sample : calculations := (loadData init sample_calData).2.

(** The sample lens with the design F-number 8: the largest aperture of
    the data file, 1/16, is below the aperture that the AP curves give at
    the last iris step. *)
Definition slow_calData : gmap string pyval :=
  <["fnum" := PNum (Qc_of_Z 8)]> sample_calData.
Definition slow : calculations := (loadData init slow_calData).2.

(** The sample lens with a forward focal-length polynomial that is not the
    inverse of [coefInv]: it maps the focal length [FL] to [100 FL]. *)
Definition skewed_calData : gmap string pyval :=
  <["FL" := PDict {[ "coef" := PList [nums [0; Qc_of_Z 100]];
                     "coefInv" := PList [nums [Qc_of_Z 9; dec 1 100]] ]}]>
  sample_calData.
Definition skewed : calculations := (loadData init skewed_calData).2.

(** The sample lens without the focal-length section. *)
Definition no_FL_calData : gmap string pyval := delete "FL" sample_calData.
Definition no_FL : calculations := (loadData init no_FL_calData).2.

(** The sample lens with curves at one focal length only. *)
Definition single_calData : gmap string pyval :=
  <["dist" := curves [Qc_of_Z 9] [[0; Qc_of_Z 5]]]>
    (<["AP" := curves [Qc_of_Z 9] [[dec 1 3; dec (-1) 300]]]> sample_calData).
Definition single : calculations := (loadData init single_calData).2.

(** The sample lens with aperture curves at the focal lengths 4.4 and
    13.2. *)
Definition fine_calData : gmap string pyval :=
  <["AP" := curves [dec 44 10; dec 132 10]
                   [[dec 1 3; dec (-1) 300]; [dec 1 4; dec (-1) 400]]]>
  sample_calData.
Definition fine : calculations := (loadData init fine_calData).2.

(** The binary64 numbers nearest to 4.4, 13.2 and 20.5. *)
Definition binary64_4_4 : float := 0x1.199999999999ap+2%float.
Definition binary64_13_2 : float := 0x1.a666666666666p+3%float.
Definition binary64_20_5 : float := 0x1.48p+4%float.

(** * Properties *)

(** Closed equations and comparisons are settled by evaluation. *)
Ltac evaluate := apply (bool_decide_unpack _); vm_compute; exact I.

Example sample_lstsq_line :
  sample_lstsq [0; 1; 2; Qc_of_Z 3] [1; Qc_of_Z 3; Qc_of_Z 5; Qc_of_Z 7] 1 = [1; 2].
Proof. evaluate. Qed.

Example sample_lstsq_parabola :
  sample_lstsq [0; 1; 2; Qc_of_Z 3] [1; 2; Qc_of_Z 5; Qc_of_Z 10] 2 = [1; 0; 1].
Proof. evaluate. Qed.

Example sample_zoomStep2FL :
  zoomStep2FL sample (Qc_of_Z 1000)
  = Ret (Qc_of_Z 19, OK, Qc_of_Z 9, Qc_of_Z 50).
Proof. evaluate. Qed.

(** ** Basic facts *)

Lemma contains_empty (k : string) : contains ∅ k = false.
Proof.
  unfold contains. rewrite lookup_empty.
  apply bool_decide_eq_false. by intros [v Hv].
Qed.

Lemma contains_lookup (d : gmap string pyval) (k : string) (v : pyval) :
  d !! k = Some v → contains d k = true.
Proof. intros Hk. unfold contains. rewrite Hk. by apply bool_decide_eq_true. Qed.

Lemma getitem_0 {A} (x : A) (l : list A) : getitem (x :: l) 0 = Ret x.
Proof.
  unfold getitem. cbn [length].
  destruct (decide (0 < 0)%Z) as [|_]; [lia|].
  destruct (decide (0 ≤ 0 < Z.of_nat (S (length l)))%Z) as [_|Hn]; [done|lia].
Qed.

Lemma getitem_1 {A} (x y : A) (l : list A) : getitem (x :: y :: l) 1 = Ret y.
Proof.
  unfold getitem. cbn [length].
  destruct (decide (1 < 0)%Z) as [|_]; [lia|].
  destruct (decide (0 ≤ 1 < Z.of_nat (S (S (length l))))%Z) as [_|Hn]; [done|lia].
Qed.

Lemma getitem_nil {A} (i : Z) : getitem (@nil A) i = Raise IndexError.
Proof.
  unfold getitem. cbn [length].
  destruct (decide (i < 0)%Z);
    destruct (decide (0 ≤ _ < Z.of_nat 0)%Z); try done; lia.
Qed.

Lemma py_div_nonzero (a b : Qc) : b ≠ 0 → py_div a b = Ret (a / b).
Proof. intros Hb. unfold py_div. by destruct (decide (b = 0)). Qed.

Lemma py_div_zero (a : Qc) : py_div a 0 = Raise ZeroDivisionError.
Proof. unfold py_div. by destruct (decide (0 = 0)). Qed.

Lemma np_div_nonzero (a b : Qc) : b ≠ 0 → np_div a b = Ret (a / b).
Proof. intros Hb. unfold np_div. by destruct (decide (b = 0)). Qed.

Lemma div_nonzero (k : kind) (a b : Qc) : b ≠ 0 → div k a b = Ret (a / b).
Proof. intros Hb. destruct k; [by apply py_div_nonzero|by apply np_div_nonzero]. Qed.

Lemma div_zero (k : kind) (a : Qc) :
  div k a 0 = Raise (match k with
                     | python => ZeroDivisionError
                     | numpy => NonFinite
                     end).
Proof. destruct k; cbn [div]; unfold py_div, np_div; by destruct (decide (0 = 0)). Qed.

(** ** The interpolation primitive with one control point *)

Lemma interpolate_one_control_point (c : list Qc) (coefList : list (list Qc))
    (cp cp1Target xValue : Qc) :
  interpolate (c :: coefList) [cp] cp1Target xValue = polyval cp1Target c.
Proof. unfold interpolate, interpolate_as. cbn [length].
  by rewrite decide_True, getitem_0 by lia. Qed.

(** C1. With one control point [interpolate] is meant to return the value
    of the only polynomial at [x]. The code evaluates the polynomial at the
    control-point target instead: for the polynomial [x ↦ x], the control
    point 5, the target 2 and [x = 3] it returns 2, and the value of the
    polynomial at [x] is 3. *)
Theorem interpolate_one_control_point_evaluates_target :
  (∀ c coefList cp cp1Target xValue,
     interpolate (c :: coefList) [cp] cp1Target xValue = polyval cp1Target c)
  ∧ interpolate [[0; 1]] [Qc_of_Z 5] 2 (Qc_of_Z 3) = Ret 2
  ∧ polyval (Qc_of_Z 3) [0; 1] = Ret (Qc_of_Z 3).
Proof.
  split; [apply interpolate_one_control_point|].
  split; evaluate.
Qed.

(** ** No calibration data *)

(** C2. With an empty calibration dict every conversion function returns
    the status [ERR_NO_CAL] and zero for every number, whatever the
    arguments. *)
Theorem no_cal_data `{Numerics} (self : calculations) :
  calData self = ∅ →
  (∀ zoomStep, zoomStep2FL self zoomStep = Ret (0, ERR_NO_CAL, 0, 0))
  ∧ (∀ focusStep zoomStep BFL,
       focusStep2OD self focusStep zoomStep BFL = Ret (0, ERR_NO_CAL, 0, 0))
  ∧ (∀ irisStep FL rangeLimit,
       irisStep2NA self irisStep FL rangeLimit = Ret (0, ERR_NO_CAL, 0, 0))
  ∧ (∀ irisStep FL, irisStep2FNum self irisStep FL = Ret (0, ERR_NO_CAL, 0, 0))
  ∧ (∀ FL, FL2ZoomStep self FL = Ret (0, ERR_NO_CAL))
  ∧ (∀ OD zoomStep BFL, OD2FocusStep self OD zoomStep BFL = Ret (0, ERR_NO_CAL))
  ∧ (∀ NA FL, NA2IrisStep self NA FL = Ret (0, ERR_NO_CAL))
  ∧ (∀ fNum FL, fNum2IrisStep self fNum FL = Ret (0, ERR_NO_CAL))
  ∧ (∀ AOV IH OD BFL, AOV2MotorSteps self AOV IH OD BFL = Ret (0, 0, 0, ERR_NO_CAL))
  ∧ (∀ FOV IH OD BFL, FOV2MotorSteps self FOV IH OD BFL = Ret (0, 0, 0, ERR_NO_CAL))
  ∧ (∀ sensorWd FL, calcAOV self sensorWd FL = Ret (0, ERR_NO_CAL))
  ∧ (∀ sensorWd FL OD, calcFOV self sensorWd FL OD = Ret (0, ERR_NO_CAL))
  ∧ (∀ irisStep FL OD, calcDOF self irisStep FL OD = Ret (0, ERR_NO_CAL, 0, 0))
  ∧ (∀ irisStep FL OD, calcFullDOF self irisStep FL OD = Ret (0, ERR_NO_CAL)).
Proof.
  intros Hempty.
  unfold zoomStep2FL, focusStep2OD, irisStep2NA, irisStep2FNum, FL2ZoomStep,
    OD2FocusStep, NA2IrisStep, fNum2IrisStep, AOV2MotorSteps, FOV2MotorSteps,
    calcAOV, calcAOV_as, calcFOV, calcDOF, calcFullDOF.
  rewrite Hempty, !contains_empty. cbn [negb].
  repeat split; done.
Qed.

Lemma no_cal_data_witness :
  calData init = ∅
  ∧ zoomStep2FL init (Qc_of_Z 1000) = Ret (0, ERR_NO_CAL, 0, 0).
Proof.
  split; [reflexivity|].
  apply (no_cal_data (H:=sample_numerics) init). reflexivity.
Defined.

(** ** Reading the calibration dict *)

Lemma subscript_contains (d : gmap string pyval) (k : string) (v : pyval) :
  subscript d k = Ret v → contains d k = true.
Proof.
  unfold subscript. destruct (d !! k) as [w|] eqn:Hk; [|done].
  intros _. by eapply contains_lookup.
Qed.

Lemma dict_at_contains (d s : gmap string pyval) (k : string) :
  dict_at d k = Ret s → contains d k = true.
Proof.
  unfold dict_at. destruct (subscript d k) as [w|] eqn:Hk; [|done].
  intros _. by eapply subscript_contains.
Qed.

Lemma num_at_contains (d : gmap string pyval) (k : string) (q : Qc) :
  num_at d k = Ret q → contains d k = true.
Proof.
  unfold num_at. destruct (subscript d k) as [w|] eqn:Hk; [|done].
  intros _. by eapply subscript_contains.
Qed.

Lemma contains_false_num_at (d : gmap string pyval) (k : string) :
  contains d k = false → num_at d k = Raise KeyError.
Proof.
  unfold contains, num_at, subscript. destruct (d !! k) as [w|]; [|done].
  intros Hc. apply bool_decide_eq_false in Hc. by destruct Hc.
Qed.

(** Rewriting with the result of a step of a method and going on to the
    next one. *)
Ltac step H := rewrite H; cbn [mbind res_bind].

(** ** The circle of confusion *)

Lemma loadCOC_object (self : calculations) (v : Qc) :
  (loadCOC self v).2
  = {| calData := calData self; COC := v;
       BFLCorrectionValues := BFLCorrectionValues self;
       BFLCorrectionCoeffs := BFLCorrectionCoeffs self |}.
Proof. unfold loadCOC. by destruct (decide _). Qed.

Lemma calcDOF_value (self : calculations) (v : Qc)
    (iris : gmap string pyval) (coef : list (list Qc)) (cp1 : list Qc)
    (irisStep FL OD d : Qc) :
  COC self = v →
  dict_at (calData self) "iris" = Ret iris →
  mat_at iris "coef" = Ret coef →
  vec_at iris "cp1" = Ret cp1 →
  interpolate coef cp1 FL irisStep = Ret d →
  OD < INFINITY → OD ≠ 0 →
  let m := FL / Qc_of_Z 1000 / OD in
  d * m ≠ 0 → 1 + v / (d * m) ≠ 0 → 1 - v / (d * m) ≠ 0 →
  let ODMin := py_min (OD / (1 + v / (d * m))) INFINITY in
  let far := py_min (OD / (1 - v / (d * m))) INFINITY in
  let ODMax := if decide (far < 0) then INFINITY else far in
  let DOF := if decide (ODMax = INFINITY) then INFINITY else ODMax - ODMin in
  calcDOF self irisStep FL OD = Ret (DOF, OK, ODMin, ODMax).
Proof.
  intros HCOC Hiris Hcoef Hcp1 Hd HOD HOD0 m Hdm Hnear Hfar. unfold calcDOF.
  rewrite (dict_at_contains _ _ _ Hiris). cbn [negb].
  rewrite decide_False by (by apply Qclt_not_le).
  step Hiris. step Hcoef. step Hcp1. step Hd. rewrite HCOC.
  rewrite py_div_nonzero by assumption. cbn [mbind res_bind].
  fold m. repeat (rewrite np_div_nonzero by assumption; cbn [mbind res_bind]).
  reflexivity.
Qed.

Lemma calcFullDOF_value (self : calculations) (v : Qc)
    (iris : gmap string pyval) (coef : list (list Qc)) (cp1 : list Qc)
    (irisStep FL OD d : Qc) :
  COC self = v →
  dict_at (calData self) "iris" = Ret iris →
  mat_at iris "coef" = Ret coef →
  vec_at iris "cp1" = Ret cp1 →
  interpolate coef cp1 FL irisStep = Ret d →
  FL * d ≠ 0 →
  calcFullDOF self irisStep FL OD
  = Ret (2 * ((OD * Qc_of_Z 1000) * (OD * Qc_of_Z 1000)) * v / (FL * d)
         / Qc_of_Z 1000, OK).
Proof.
  intros HCOC Hiris Hcoef Hcp1 Hd HFL. unfold calcFullDOF.
  rewrite (dict_at_contains _ _ _ Hiris). cbn [negb].
  step Hiris. step Hcoef. step Hcp1. step Hd. rewrite HCOC.
  rewrite np_div_nonzero by assumption. reflexivity.
Qed.

(** C8. [loadCOC] warns exactly when the value is outside [0.005, 0.100];
    in every case it stores the value, and the depth-of-field functions
    called afterwards compute with it. The values of [calcDOF] and
    [calcFullDOF] are stated for a finite, non-zero object distance and an
    aperture [d] at which the quotients are defined. *)
Theorem loadCOC_applies (self : calculations) (v : Qc) :
  ((loadCOC self v).1 = WARN_VALUE ↔ v < dec 5 1000 ∨ dec 100 1000 < v)
  ∧ ((loadCOC self v).1 = OK ↔ dec 5 1000 ≤ v ≤ dec 100 1000)
  ∧ COC (loadCOC self v).2 = v
  ∧ calData (loadCOC self v).2 = calData self
  ∧ (∀ iris coef cp1 irisStep FL OD d,
       dict_at (calData self) "iris" = Ret iris →
       mat_at iris "coef" = Ret coef →
       vec_at iris "cp1" = Ret cp1 →
       interpolate coef cp1 FL irisStep = Ret d →
       OD < INFINITY → OD ≠ 0 →
       let m := FL / Qc_of_Z 1000 / OD in
       d * m ≠ 0 → 1 + v / (d * m) ≠ 0 → 1 - v / (d * m) ≠ 0 →
       let ODMin := py_min (OD / (1 + v / (d * m))) INFINITY in
       let far := py_min (OD / (1 - v / (d * m))) INFINITY in
       let ODMax := if decide (far < 0) then INFINITY else far in
       let DOF := if decide (ODMax = INFINITY) then INFINITY else ODMax - ODMin in
       calcDOF (loadCOC self v).2 irisStep FL OD = Ret (DOF, OK, ODMin, ODMax))
  ∧ (∀ iris coef cp1 irisStep FL OD d,
       dict_at (calData self) "iris" = Ret iris →
       mat_at iris "coef" = Ret coef →
       vec_at iris "cp1" = Ret cp1 →
       interpolate coef cp1 FL irisStep = Ret d →
       FL * d ≠ 0 →
       calcFullDOF (loadCOC self v).2 irisStep FL OD
       = Ret (2 * ((OD * Qc_of_Z 1000) * (OD * Qc_of_Z 1000)) * v / (FL * d)
              / Qc_of_Z 1000, OK)).
Proof.
  assert (HCOC : COC (loadCOC self v).2 = v) by (by rewrite loadCOC_object).
  assert (Hcal : calData (loadCOC self v).2 = calData self)
    by (by rewrite loadCOC_object).
  split; [|split; [|split; [|split; [|split]]]].
  - unfold loadCOC. destruct (decide _) as [Hout|Hin]; cbn [fst].
    + split; intros; [assumption|reflexivity].
    + split; intros; [discriminate|contradiction].
  - unfold loadCOC. destruct (decide _) as [Hout|Hin]; cbn [fst].
    + split; [intros; discriminate|]. intros [Hlo Hhi].
      destruct Hout as [Hout|Hout]; by apply Qclt_not_le in Hout.
    + split; [|reflexivity]. intros _. split; apply Qcnot_lt_le; tauto.
  - exact HCOC.
  - exact Hcal.
  - intros iris coef cp1 irisStep FL OD d Hiris Hcoef Hcp1 Hd HOD HOD0 m.
    intros Hdm Hnear Hfar. rewrite <- Hcal in Hiris.
    exact (calcDOF_value _ v iris coef cp1 irisStep FL OD d HCOC Hiris Hcoef
             Hcp1 Hd HOD HOD0 Hdm Hnear Hfar).
  - intros iris coef cp1 irisStep FL OD d Hiris Hcoef Hcp1 Hd HFL.
    rewrite <- Hcal in Hiris.
    exact (calcFullDOF_value _ v iris coef cp1 irisStep FL OD d HCOC Hiris
             Hcoef Hcp1 Hd HFL).
Qed.

Lemma loadCOC_applies_witness :
  (loadCOC sample (dec 15 100)).1 = WARN_VALUE
  ∧ COC (loadCOC sample (dec 15 100)).2 = dec 15 100
  ∧ calcDOF (loadCOC sample (dec 15 100)).2
      (Qc_of_Z 20) (Qc_of_Z 9) (Qc_of_Z 10)
    = Ret (INFINITY, OK, dec 30 103, INFINITY)
  ∧ calcDOF sample (Qc_of_Z 20) (Qc_of_Z 9) (Qc_of_Z 10)
    = Ret (INFINITY, OK, dec 90 49, INFINITY).
Proof.
  pose proof (loadCOC_applies sample (dec 15 100))
    as (Hwarn & _ & HCOC & _ & HDOF & _).
  split; [apply Hwarn; right; evaluate|].
  split; [exact HCOC|].
  split; [|evaluate].
  rewrite (HDOF {[ "cp1" := nums [Qc_of_Z 9; Qc_of_Z 50];
                   "coef" := PList (nums <$> [[Qc_of_Z 6; dec (-1) 20];
                                              [Qc_of_Z 5; dec (-1) 20]]) ]}
             [[Qc_of_Z 6; dec (-1) 20]; [Qc_of_Z 5; dec (-1) 20]]
             [Qc_of_Z 9; Qc_of_Z 50]
             (Qc_of_Z 20) (Qc_of_Z 9) (Qc_of_Z 10) (Qc_of_Z 5)).
  - evaluate.
  - reflexivity.
  - evaluate.
  - evaluate.
  - evaluate.
  - evaluate.
  - evaluate.
  - evaluate.
  - evaluate.
  - evaluate.
Defined.

(** ** Removing the last BFL correction point *)

Lemma fitBFLCorrection_coeffs_nil `{Numerics} :
  fitBFLCorrection_coeffs [] = Raise IndexError.
Proof. reflexivity. Qed.

Lemma fitBFLCorrection_coeffs_one `{Numerics} (FL shift OD : Qc) :
  fitBFLCorrection_coeffs [[FL; shift; OD]] = Ret [shift].
Proof. reflexivity. Qed.

Lemma polyval_constant (x c : Qc) : polyval x [c] = Ret c.
Proof. unfold polyval. cbn. f_equal. ring. Qed.

(** C6. Removing the only stored sample is meant to leave an empty set
    with no correction. The code deletes the sample and then raises
    [IndexError] in [fitBFLCorrection], whose branch for "up to 3 data
    points" also takes the empty list and indexes the empty transpose; the
    coefficients fitted before stay in place. On the sample object with one
    correction point of 11 steps, the removal raises and leaves no sample
    and the coefficient 11. *)
Theorem removeBFLCorrectionByIndex_last_sample_raises `{Numerics}
    (cal : gmap string pyval) (coc FL shift OD : Qc) (coeffs : list Qc) :
  let self := {| calData := cal; COC := coc;
                 BFLCorrectionValues := [[FL; shift; OD]];
                 BFLCorrectionCoeffs := coeffs |} in
  let one := (addBFLCorrection sample (Qc_of_Z 5510) (Qc_of_Z 19) INFINITY).2 in
  (removeBFLCorrectionByIndex self 0).1 = Raise IndexError
  ∧ BFLCorrectionValues (removeBFLCorrectionByIndex self 0).2 = []
  ∧ BFLCorrectionCoeffs (removeBFLCorrectionByIndex self 0).2 = coeffs
  ∧ BFLCorrectionValues one = [[Qc_of_Z 19; Qc_of_Z 11; INFINITY]]
  ∧ BFLCorrectionCoeffs one = [Qc_of_Z 11]
  ∧ (removeBFLCorrectionByIndex one 0).1 = Raise IndexError
  ∧ BFLCorrectionValues (removeBFLCorrectionByIndex one 0).2 = []
  ∧ BFLCorrectionCoeffs (removeBFLCorrectionByIndex one 0).2 = [Qc_of_Z 11].
Proof.
  intros self one.
  assert (Hone : BFLCorrectionValues one = [[Qc_of_Z 19; Qc_of_Z 11; INFINITY]])
    by evaluate.
  assert (Hcoeffs : BFLCorrectionCoeffs one = [Qc_of_Z 11]) by evaluate.
  assert (Hremove : ∀ s v, BFLCorrectionValues s = [v] →
            removeBFLCorrectionByIndex s 0
            = (Raise IndexError, set_BFLCorrectionValues s [])).
  { intros s v Hs. unfold removeBFLCorrectionByIndex. rewrite Hs. cbn [length].
    rewrite decide_False by lia. reflexivity. }
  rewrite (Hremove self [FL; shift; OD]), (Hremove one _ Hone) by reflexivity.
  cbn [fst snd set_BFLCorrectionValues BFLCorrectionValues BFLCorrectionCoeffs].
  split; [reflexivity|]. split; [reflexivity|]. split; [reflexivity|].
  split; [exact Hone|]. split; [exact Hcoeffs|]. split; [reflexivity|].
  split; [reflexivity|exact Hcoeffs].
Qed.

(** ** The numeric aperture and its range *)

Lemma Qc_double_nonzero (x : Qc) : x ≠ 0 → 2 * x ≠ 0.
Proof.
  intros Hx H2. apply Qcmult_integral in H2 as [H2|H2]; [|done].
  revert H2. evaluate.
Qed.

(** The value, the status and the bounds that [irisStep2NA] returns, from
    the three values of the AP curves and the design F-number. *)
Lemma irisStep2NA_value (self : calculations) (ap : gmap string pyval)
    (coef : list (list Qc)) (cp1 : list Qc)
    (irisStep FL irisSteps fnum raw lo hi : Qc) (rangeLimit : bool) :
  dict_at (calData self) "AP" = Ret ap →
  mat_at ap "coef" = Ret coef →
  vec_at ap "cp1" = Ret cp1 →
  interpolate coef cp1 FL irisStep = Ret raw →
  num_at (calData self) "irisSteps" = Ret irisSteps →
  interpolate coef cp1 FL irisSteps = Ret lo →
  interpolate coef cp1 FL 0 = Ret hi →
  num_at (calData self) "fnum" = Ret fnum →
  fnum ≠ 0 →
  let NAMax := py_min hi (1 / (2 * fnum)) in
  let NAMin := py_max lo (dec 1 100) in
  irisStep2NA self irisStep FL rangeLimit
  = Ret (if decide (NAMax < raw) then
           (if rangeLimit then NAMax else raw, ERR_NA_MAX, NAMin, NAMax)
         else if decide (raw < NAMin) then
           (if rangeLimit then NAMin else raw, ERR_NA_MIN, NAMin, NAMax)
         else (raw, OK, NAMin, NAMax)).
Proof.
  intros Hap Hcoef Hcp1 Hraw Hsteps Hlo Hhi Hfnum Hnz NAMax NAMin.
  unfold irisStep2NA. rewrite (dict_at_contains _ _ _ Hap). cbn [negb].
  step Hap. step Hcoef. step Hcp1. step Hraw. step Hsteps. step Hlo.
  step Hhi. step Hfnum.
  rewrite py_div_nonzero by (by apply Qc_double_nonzero).
  cbn [mbind res_bind]. fold NAMax NAMin.
  destruct (decide (NAMax < raw)); [reflexivity|].
  destruct (decide (raw < NAMin)); reflexivity.
Qed.

(** C4, as the code has it. On calibration data from which the three
    curve values and the design F-number can be read, [irisStep2NA]
    returns the bounds [NAMin] (the curve at the last iris step, at least
    0.01) and [NAMax] (the curve at step 0, at most [1/(2 fnum)]).  Without
    the range limit it returns the raw value, with [ERR_NA_MAX] when the
    value is above [NAMax], else [ERR_NA_MIN] when it is below [NAMin].
    With the range limit it returns [NAMax] in the first case and [NAMin]
    in the second, so that the value is within the bounds whenever
    [NAMin ≤ NAMax]; the code does not make the bounds an interval. *)
Theorem irisStep2NA_range (self : calculations) (ap : gmap string pyval)
    (coef : list (list Qc)) (cp1 : list Qc)
    (irisStep FL irisSteps fnum raw lo hi : Qc) :
  dict_at (calData self) "AP" = Ret ap →
  mat_at ap "coef" = Ret coef →
  vec_at ap "cp1" = Ret cp1 →
  interpolate coef cp1 FL irisStep = Ret raw →
  num_at (calData self) "irisSteps" = Ret irisSteps →
  interpolate coef cp1 FL irisSteps = Ret lo →
  interpolate coef cp1 FL 0 = Ret hi →
  num_at (calData self) "fnum" = Ret fnum →
  fnum ≠ 0 →
  let NAMax := py_min hi (1 / (2 * fnum)) in
  let NAMin := py_max lo (dec 1 100) in
  let err := if decide (NAMax < raw) then ERR_NA_MAX
             else if decide (raw < NAMin) then ERR_NA_MIN else OK in
  let NA := if decide (NAMax < raw) then NAMax
            else if decide (raw < NAMin) then NAMin else raw in
  irisStep2NA self irisStep FL false = Ret (raw, err, NAMin, NAMax)
  ∧ irisStep2NA self irisStep FL true = Ret (NA, err, NAMin, NAMax)
  ∧ (NAMin ≤ NAMax → NAMin ≤ NA ≤ NAMax)
  ∧ (err = OK → NA = raw ∧ NAMin ≤ raw ≤ NAMax).
Proof.
  intros Hap Hcoef Hcp1 Hraw Hsteps Hlo Hhi Hfnum Hnz NAMax NAMin err NA.
  rewrite !(irisStep2NA_value self ap coef cp1 irisStep FL irisSteps fnum
              raw lo hi) by assumption.
  fold NAMax NAMin. subst err NA.
  destruct (decide (NAMax < raw)) as [Habove|Habove].
  { split; [reflexivity|]. split; [reflexivity|]. split; [|discriminate].
    intros Hbounds. split; [assumption|reflexivity]. }
  destruct (decide (raw < NAMin)) as [Hbelow|Hbelow].
  { split; [reflexivity|]. split; [reflexivity|]. split; [|discriminate].
    intros Hbounds. split; [reflexivity|assumption]. }
  apply Qcnot_lt_le in Habove, Hbelow.
  repeat split; assumption.
Qed.

Lemma irisStep2NA_range_witness :
  irisStep2NA sample (Qc_of_Z 80) (Qc_of_Z 19) false
  = Ret (dec 77 1230, ERR_NA_MIN, dec 77 984, dec 77 246)
  ∧ irisStep2NA sample (Qc_of_Z 80) (Qc_of_Z 19) true
  = Ret (dec 77 984, ERR_NA_MIN, dec 77 984, dec 77 246).
Proof.
  pose proof (irisStep2NA_range sample
    {[ "cp1" := nums [Qc_of_Z 9; Qc_of_Z 50];
       "coef" := PList (nums <$> [[dec 1 3; dec (-1) 300];
                                  [dec 1 4; dec (-1) 400]]) ]}
    [[dec 1 3; dec (-1) 300]; [dec 1 4; dec (-1) 400]]
    [Qc_of_Z 9; Qc_of_Z 50]
    (Qc_of_Z 80) (Qc_of_Z 19) (Qc_of_Z 75) (dec 14 10)
    (dec 77 1230) (dec 77 984) (dec 77 246)) as Hrange.
  destruct Hrange as (Hfalse & Htrue & _).
  - reflexivity.
  - evaluate.
  - evaluate.
  - evaluate.
  - evaluate.
  - evaluate.
  - evaluate.
  - evaluate.
  - evaluate.
  - split.
    + rewrite Hfalse. evaluate.
    + rewrite Htrue. evaluate.
Defined.

(** With the design F-number 8 the bounds are [NAMin = 1/12] and
    [NAMax = 1/16]: the limited value [1/16] is below [NAMin]. *)
Lemma irisStep2NA_outside_bounds :
  ¬ (∀ irisStep FL NA err NAMin NAMax,
       irisStep2NA slow irisStep FL true = Ret (NA, err, NAMin, NAMax) →
       NAMin ≤ NA ≤ NAMax).
Proof.
  intros Hclaim.
  specialize (Hclaim (Qc_of_Z 20) (Qc_of_Z 9) (dec 1 16) ERR_NA_MAX
                (dec 1 12) (dec 1 16)).
  destruct Hclaim as [Hlo _]; [evaluate|].
  revert Hlo. evaluate.
Qed.

(** ** From a zoom step to the focal length and back *)

Lemma Qc_of_Z_minus_1 (a : Z) : Qc_of_Z (a - 1) = Qc_of_Z a - 1.
Proof. by rewrite Z2Qc_inj_sub, Z2Qc_inj_1. Qed.

Lemma Qc_of_Z_plus_1 (a : Z) : Qc_of_Z (a + 1) = Qc_of_Z a + 1.
Proof. by rewrite Z2Qc_inj_add, Z2Qc_inj_1. Qed.

Lemma Qc_of_Z_lt_l (n : Z) (x : Qc) :
  Qc_of_Z n < x ↔ (n * Zpos (Qden x) < Qnum x)%Z.
Proof.
  unfold Qclt, Qlt. cbn [this Qc_of_Z inject_Z Qnum Qden]. lia.
Qed.

Lemma Qc_of_Z_lt_r (n : Z) (x : Qc) :
  x < Qc_of_Z n ↔ (Qnum x < n * Zpos (Qden x))%Z.
Proof.
  unfold Qclt, Qlt. cbn [this Qc_of_Z inject_Z Qnum Qden]. lia.
Qed.

Lemma Qc_of_Z_not_neg (n : Z) : (0 ≤ n)%Z → ¬ Qc_of_Z n < 0.
Proof.
  intros Hn. apply Qcle_not_lt. rewrite <- Z2Qc_inj_0.
  exact (proj1 (Z2Qc_inj_le 0 n) Hn).
Qed.

(** Truncation of a number that is less than one away from the integer
    [n ≥ 0] gives [n] or [n - 1]. *)
Lemma int_near (x : Qc) (n : Z) :
  (0 ≤ n)%Z → Qc_of_Z n - 1 < x → x < Qc_of_Z n + 1 →
  int x = Qc_of_Z n ∨ (0 < n)%Z ∧ int x = Qc_of_Z (n - 1).
Proof.
  intros Hn Hlo Hhi.
  rewrite <- Qc_of_Z_minus_1 in Hlo. rewrite <- Qc_of_Z_plus_1 in Hhi.
  apply Qc_of_Z_lt_l in Hlo. apply Qc_of_Z_lt_r in Hhi.
  unfold int. set (a := Qnum x) in *. set (b := Zpos (Qden x)) in *.
  assert (Hb : (0 < b)%Z) by (subst b; lia).
  destruct (decide (0 ≤ a)%Z) as [Ha|Ha].
  - rewrite Z.quot_div_nonneg by lia.
    assert (n - 1 ≤ a / b)%Z by (apply Z.div_le_lower_bound; lia).
    assert (a / b < n + 1)%Z by (apply Z.div_lt_upper_bound; lia).
    assert (0 ≤ a / b)%Z by (apply Z.div_pos; lia).
    destruct (decide (a / b = n)%Z) as [->|Hne]; [by left|].
    right. split; [lia|]. f_equal. lia.
  - assert (n = 0)%Z as -> by nia.
    left. f_equal.
    assert (Hquot : (- a ÷ b = 0)%Z) by (apply Z.quot_small; lia).
    rewrite Z.quot_opp_l in Hquot by lia. lia.
Qed.

(** C3, as the code has it. The round trip depends on the data: the
    code reads [coefInv] in one direction and [coef] in the other, and
    nothing relates the two. Where [zoomStep2FL] reports [OK] for the
    step [s] of the motor, the focal length lies between [flMin] and
    [flMax]; where moreover [coef] takes that focal length back to within
    one step of [s], [FL2ZoomStep] returns [s] or [s - 1] with the status
    [OK]. *)
Theorem zoom_round_trip (self : calculations) (fl : gmap string pyval)
    (coefs : list (list Qc)) (coef : list Qc) (s : Z)
    (FL flMin flMax p zoomStepMax : Qc) :
  zoomStep2FL self (Qc_of_Z s) = Ret (FL, OK, flMin, flMax) →
  dict_at (calData self) "FL" = Ret fl →
  mat_at fl "coef" = Ret coefs →
  getitem coefs 0 = Ret coef →
  polyval FL coef = Ret p →
  num_at (calData self) "zoomSteps" = Ret zoomStepMax →
  (0 ≤ s)%Z → Qc_of_Z s ≤ zoomStepMax →
  Qc_of_Z s - 1 < p → p < Qc_of_Z s + 1 →
  (flMin ≤ FL ∧ FL ≤ flMax)
  ∧ (FL2ZoomStep self FL = Ret (Qc_of_Z s, OK)
     ∨ FL2ZoomStep self FL = Ret (Qc_of_Z s - 1, OK)).
Proof.
  intros Hz Hfl Hcoefs Hcoef Hp Hmax Hs Hsmax Hlo Hhi. split.
  { unfold zoomStep2FL in Hz.
    rewrite (dict_at_contains _ _ _ Hfl) in Hz. cbn [negb] in Hz.
    rewrite Hfl in Hz. cbn [mbind res_bind] in Hz.
    destruct (mat_at fl "coefInv") as [m|]; [|discriminate].
    cbn [mbind res_bind] in Hz.
    destruct (getitem m 0) as [c|]; [|discriminate].
    cbn [mbind res_bind] in Hz.
    destruct (polyval (Qc_of_Z s) c) as [v|]; [|discriminate].
    cbn [mbind res_bind] in Hz.
    destruct (num_at (calData self) "flMin") as [lo|]; [|discriminate].
    cbn [mbind res_bind] in Hz.
    destruct (num_at (calData self) "flMax") as [hi|]; [|discriminate].
    cbn [mbind res_bind] in Hz.
    destruct (decide (v < lo)) as [|Hge]; [discriminate|].
    destruct (decide (hi < v)) as [|Hle]; [discriminate|].
    injection Hz as -> -> ->. split; by apply Qcnot_lt_le. }
  unfold FL2ZoomStep. rewrite (dict_at_contains _ _ _ Hfl). cbn [negb].
  step Hfl. step Hcoefs. step Hcoef. step Hp. step Hmax.
  destruct (int_near p s Hs Hlo Hhi) as [Hint|[Hpos Hint]]; rewrite Hint.
  - left.
    rewrite decide_False by (by apply Qc_of_Z_not_neg).
    by rewrite decide_False by (by apply Qcle_not_lt).
  - right. rewrite <- Qc_of_Z_minus_1.
    rewrite decide_False by (apply Qc_of_Z_not_neg; lia).
    rewrite decide_False; [reflexivity|].
    apply Qcle_not_lt. etrans; [|exact Hsmax].
    apply (proj1 (Z2Qc_inj_le (s - 1) s)). lia.
Qed.

Lemma zoom_round_trip_witness :
  (Qc_of_Z 9 ≤ Qc_of_Z 19 ∧ Qc_of_Z 19 ≤ Qc_of_Z 50)
  ∧ (FL2ZoomStep sample (Qc_of_Z 19) = Ret (Qc_of_Z 1000, OK)
     ∨ FL2ZoomStep sample (Qc_of_Z 19) = Ret (Qc_of_Z 1000 - 1, OK)).
Proof.
  apply (zoom_round_trip sample
           {[ "coef" := PList [nums [Qc_of_Z (-900); Qc_of_Z 100]];
              "coefInv" := PList [nums [Qc_of_Z 9; dec 1 100]] ]}
           [[Qc_of_Z (-900); Qc_of_Z 100]] [Qc_of_Z (-900); Qc_of_Z 100]
           1000 (Qc_of_Z 19) (Qc_of_Z 9) (Qc_of_Z 50) (Qc_of_Z 1000)
           (Qc_of_Z 4000)).
  - evaluate.
  - reflexivity.
  - evaluate.
  - evaluate.
  - evaluate.
  - evaluate.
  - lia.
  - evaluate.
  - evaluate.
  - evaluate.
Defined.

(** On the data set [skewed] the zoom step 1000 has the focal length 19,
    inside the calibrated range, and [FL2ZoomStep] takes 19 to the step
    1900. *)
Lemma zoom_round_trip_fails :
  ¬ (∀ s FL flMin flMax z err,
       zoomStep2FL skewed s = Ret (FL, OK, flMin, flMax) →
       FL2ZoomStep skewed FL = Ret (z, err) →
       s - 1 ≤ z ≤ s + 1).
Proof.
  intros Hclaim.
  specialize (Hclaim (Qc_of_Z 1000) (Qc_of_Z 19) (Qc_of_Z 9) (Qc_of_Z 50)
                (Qc_of_Z 1900) OK).
  destruct Hclaim as [_ Hhi]; [evaluate|evaluate|].
  revert Hhi. evaluate.
Qed.

(** ** The object distance from the focus step *)

Lemma mapM_res_lookup {A B} (f : A → res B) (l : list A) (k : list B) :
  mapM f l = Ret k →
  length k = length l
  ∧ ∀ (i : nat) (x : A), l !! i = Some x → ∃ y, k !! i = Some y ∧ f x = Ret y.
Proof.
  revert k. induction l as [|a l IH]; intros k Hk; cbn in Hk.
  - injection Hk as <-. split; [reflexivity|].
    intros i x Hx. by rewrite lookup_nil in Hx.
  - destruct (f a) as [y|] eqn:Hf; cbn in Hk; [|discriminate].
    destruct (mapM f l) as [k'|] eqn:Hm; cbn in Hk; [|discriminate].
    injection Hk as <-. destruct (IH k' eq_refl) as [Hlen Hlook].
    split; [cbn; by rewrite Hlen|].
    intros [|i] x Hx; cbn in Hx.
    + injection Hx as <-. by exists y.
    + by apply Hlook.
Qed.

Lemma getitem_lookup {A} (l : list A) (i : Z) (x : A) :
  getitem l i = Ret x →
  ∃ j : nat, l !! j = Some x ∧ (j < length l)%nat
    ∧ Z.of_nat j = if decide (i < 0)%Z then (i + Z.of_nat (length l))%Z else i.
Proof.
  unfold getitem. cbv zeta.
  set (j := if decide (i < 0)%Z then (i + Z.of_nat (length l))%Z else i).
  destruct (decide (0 ≤ j < Z.of_nat (length l))%Z) as [Hj|]; [|discriminate].
  destruct (l !! Z.to_nat j) as [y|] eqn:Hy; [|discriminate].
  intros [= ->]. exists (Z.to_nat j). split; [assumption|]. split; lia.
Qed.

(** Every entry of the focus step list is the tracking curve of its
    index at the zoom step, plus the BFL correction; there is one entry
    per control point. *)
Lemma focusStep2OD_focusStepList_lookup (coefList : list (list Qc))
    (cp1List fsl : list Qc) (zoomStep BFL : Qc) :
  focusStep2OD_focusStepList coefList cp1List zoomStep BFL = Ret fsl →
  length fsl = length cp1List
  ∧ ∀ (j : nat) (s : Qc), fsl !! j = Some s →
      ∃ c v, getitem coefList (Z.of_nat j) = Ret c
             ∧ polyval zoomStep c = Ret v ∧ s = v + BFL.
Proof.
  intros Hfsl. apply mapM_res_lookup in Hfsl as [Hlen Hlook].
  rewrite length_seqZ, Nat2Z.id in Hlen. split; [assumption|].
  intros j s Hs.
  assert (Hj : (j < length cp1List)%nat)
    by (rewrite <- Hlen; by apply lookup_lt_Some in Hs).
  destruct (Hlook j (Z.of_nat j)) as (y & Hy & Hf).
  { apply lookup_seqZ. lia. }
  rewrite Hs in Hy. injection Hy as <-.
  destruct (getitem coefList (Z.of_nat j)) as [c|]; [|discriminate].
  cbn [mbind res_bind] in Hf.
  destruct (polyval zoomStep c) as [v|] eqn:Hv; [|discriminate].
  cbn [mbind res_bind] in Hf. injection Hf as <-. by exists c, v.
Qed.

(** * Further properties of the code *)

(** ** Arithmetic of the aperture conversions *)

(** Equations of the field of rationals, with the side conditions that are
    among the hypotheses or are closed. *)
Ltac qc_field := field; repeat split; try assumption; try evaluate.

Lemma Qc_double_zero (x : Qc) : 2 * x = 0 → x = 0.
Proof.
  intros H2. apply Qcmult_integral in H2 as [H2|H2]; [|assumption].
  exfalso. revert H2. evaluate.
Qed.

Lemma Qc_half_inv_nonzero (x : Qc) : x ≠ 0 → 1 / (2 * x) ≠ 0.
Proof.
  intros Hx Hq.
  assert (Hone : 2 * x * (1 / (2 * x)) = 1) by qc_field.
  rewrite Hq in Hone. revert Hone. rewrite Qcmult_0_r. evaluate.
Qed.

(** ** A section of the calibration data that is missing *)

Lemma contains_None (d : gmap string pyval) (k : string) :
  d !! k = None → contains d k = false.
Proof.
  intros Hk. unfold contains. rewrite Hk.
  apply bool_decide_eq_false. by intros [v Hv].
Qed.

(** X2. Every conversion function tests for the one section of the
    calibration data that it reads first, and returns the status
    [ERR_NO_CAL] with zeros when that section is missing, whatever else is
    loaded: ["FL"] for the zoom functions, ["tracking"] for the focus
    functions, ["AP"] for the aperture functions, ["dist"] for the angle
    and field of view, ["iris"] for the depth of field. *)
Theorem missing_section `{Numerics} (self : calculations) :
  (calData self !! "FL" = None →
     (∀ zoomStep, zoomStep2FL self zoomStep = Ret (0, ERR_NO_CAL, 0, 0))
     ∧ (∀ FL, FL2ZoomStep self FL = Ret (0, ERR_NO_CAL)))
  ∧ (calData self !! "tracking" = None →
     (∀ focusStep zoomStep BFL,
        focusStep2OD self focusStep zoomStep BFL = Ret (0, ERR_NO_CAL, 0, 0))
     ∧ (∀ OD zoomStep BFL,
          OD2FocusStep self OD zoomStep BFL = Ret (0, ERR_NO_CAL)))
  ∧ (calData self !! "AP" = None →
     (∀ irisStep FL rangeLimit,
        irisStep2NA self irisStep FL rangeLimit = Ret (0, ERR_NO_CAL, 0, 0))
     ∧ (∀ irisStep FL, irisStep2FNum self irisStep FL = Ret (0, ERR_NO_CAL, 0, 0))
     ∧ (∀ NA FL, NA2IrisStep self NA FL = Ret (0, ERR_NO_CAL))
     ∧ (∀ fNum FL, fNum2IrisStep self fNum FL = Ret (0, ERR_NO_CAL)))
  ∧ (calData self !! "dist" = None →
     (∀ AOV IH OD BFL,
        AOV2MotorSteps self AOV IH OD BFL = Ret (0, 0, 0, ERR_NO_CAL))
     ∧ (∀ FOV IH OD BFL,
          FOV2MotorSteps self FOV IH OD BFL = Ret (0, 0, 0, ERR_NO_CAL))
     ∧ (∀ sensorWd FL, calcAOV self sensorWd FL = Ret (0, ERR_NO_CAL))
     ∧ (∀ sensorWd FL OD, calcFOV self sensorWd FL OD = Ret (0, ERR_NO_CAL)))
  ∧ (calData self !! "iris" = None →
     (∀ irisStep FL OD, calcDOF self irisStep FL OD = Ret (0, ERR_NO_CAL, 0, 0))
     ∧ (∀ irisStep FL OD, calcFullDOF self irisStep FL OD = Ret (0, ERR_NO_CAL))).
Proof.
  unfold zoomStep2FL, focusStep2OD, irisStep2NA, irisStep2FNum, FL2ZoomStep,
    OD2FocusStep, NA2IrisStep, fNum2IrisStep, AOV2MotorSteps, FOV2MotorSteps,
    calcAOV, calcAOV_as, calcFOV, calcDOF, calcFullDOF.
  split; [|split; [|split; [|split]]];
    intros Hk; apply contains_None in Hk; rewrite Hk; cbn [negb];
    repeat split; reflexivity.
Qed.

Lemma missing_section_witness :
  calData no_FL !! "FL" = None
  ∧ calData no_FL !! "zoomSteps" = Some (PNum (Qc_of_Z 4000))
  ∧ zoomStep2FL no_FL (Qc_of_Z 1000) = Ret (0, ERR_NO_CAL, 0, 0)
  ∧ FL2ZoomStep no_FL (Qc_of_Z 19) = Ret (0, ERR_NO_CAL).
Proof.
  destruct (missing_section (H:=sample_numerics) no_FL) as [HFL _].
  destruct HFL as [Hzoom Hstep]; [reflexivity|].
  split; [reflexivity|]. split; [reflexivity|].
  split; [apply Hzoom|apply Hstep].
Defined.

(** X3. [ODFL2FocusStep] tests for an empty calibration dict, not for the
    section ["FL"]; the status of [FL2ZoomStep] is dropped. With data
    loaded but no section ["FL"] it therefore computes the focus step for
    the zoom step 0, with the status of [OD2FocusStep]. *)
Theorem ODFL2FocusStep_without_FL (self : calculations) (OD FL BFL : Qc) :
  calData self ≠ ∅ →
  calData self !! "FL" = None →
  ODFL2FocusStep self OD FL BFL = OD2FocusStep self OD 0 BFL.
Proof.
  intros Hdata HFL. unfold ODFL2FocusStep, FL2ZoomStep.
  rewrite (contains_None _ _ HFL). cbn [negb].
  by destruct (decide (calData self = ∅)).
Qed.

Lemma ODFL2FocusStep_without_FL_witness :
  ODFL2FocusStep no_FL INFINITY (Qc_of_Z 19) 0
  = OD2FocusStep no_FL INFINITY 0 0
  ∧ OD2FocusStep no_FL INFINITY 0 0 = Ret (Qc_of_Z 4999, OK)
  ∧ ODFL2FocusStep sample INFINITY (Qc_of_Z 19) 0 = Ret (Qc_of_Z 5499, OK).
Proof.
  split; [|split; evaluate].
  apply (ODFL2FocusStep_without_FL no_FL INFINITY (Qc_of_Z 19) 0).
  - intros Hempty. apply (f_equal (λ m, m !! "zoomSteps")) in Hempty.
    vm_compute in Hempty. discriminate.
  - reflexivity.
Defined.

(** ** Ranges of the zoom and focus conversions *)

(** Comparisons of rationals that follow from the comparisons among the
    hypotheses. *)
Ltac qc_order := unfold Qclt, Qcle in *; lra.

(** X4. On readable data [zoomStep2FL] returns the value of the inverse
    polynomial as it is, never limited to the range, with the bounds of the
    data file; the status is [OK] exactly when the value is within the
    bounds, [ERR_FL_MIN] exactly when it is below [flMin], and [ERR_FL_MAX]
    exactly when it is above [flMax] without being below [flMin]. *)
Theorem zoomStep2FL_status (self : calculations) (fl : gmap string pyval)
    (coefInv : list (list Qc)) (coef : list Qc)
    (zoomStep FL flMin flMax : Qc) :
  dict_at (calData self) "FL" = Ret fl →
  mat_at fl "coefInv" = Ret coefInv →
  getitem coefInv 0 = Ret coef →
  polyval zoomStep coef = Ret FL →
  num_at (calData self) "flMin" = Ret flMin →
  num_at (calData self) "flMax" = Ret flMax →
  ∃ err, zoomStep2FL self zoomStep = Ret (FL, err, flMin, flMax)
    ∧ (err = OK ↔ flMin ≤ FL ∧ FL ≤ flMax)
    ∧ (err = ERR_FL_MIN ↔ FL < flMin)
    ∧ (err = ERR_FL_MAX ↔ flMin ≤ FL ∧ flMax < FL).
Proof.
  intros Hfl Hinv Hcoef HFL Hmin Hmax.
  unfold zoomStep2FL. rewrite (dict_at_contains _ _ _ Hfl). cbn [negb].
  step Hfl. step Hinv. step Hcoef. step HFL. step Hmin. step Hmax.
  destruct (decide (FL < flMin)) as [Hlo|Hlo];
    [|destruct (decide (flMax < FL)) as [Hhi|Hhi]];
    eexists; (split; [reflexivity|]);
    (split; [|split]); (split; [intros Herr|intros Hcase]);
    try discriminate Herr; try reflexivity; try (exfalso; qc_order);
    try (split; qc_order); try qc_order.
Qed.

Lemma zoomStep2FL_status_witness :
  ∃ err, zoomStep2FL sample (Qc_of_Z 5000)
         = Ret (Qc_of_Z 59, err, Qc_of_Z 9, Qc_of_Z 50)
    ∧ (err = OK ↔ Qc_of_Z 9 ≤ Qc_of_Z 59 ∧ Qc_of_Z 59 ≤ Qc_of_Z 50)
    ∧ (err = ERR_FL_MIN ↔ Qc_of_Z 59 < Qc_of_Z 9)
    ∧ (err = ERR_FL_MAX ↔ Qc_of_Z 9 ≤ Qc_of_Z 59 ∧ Qc_of_Z 50 < Qc_of_Z 59).
Proof.
  apply (zoomStep2FL_status sample
           {[ "coef" := PList [nums [Qc_of_Z (-900); Qc_of_Z 100]];
              "coefInv" := PList [nums [Qc_of_Z 9; dec 1 100]] ]}
           [[Qc_of_Z 9; dec 1 100]] [Qc_of_Z 9; dec 1 100]).
  - reflexivity.
  - evaluate.
  - evaluate.
  - evaluate.
  - evaluate.
  - evaluate.
Defined.

(** X5. On readable data with a zoom range [zoomSteps ≥ 0], [FL2ZoomStep]
    returns a step of the range: 0 with [ERR_RANGE_MIN] when the truncated
    value of the polynomial is negative, [zoomSteps] with [ERR_RANGE_MAX]
    when it is above the range, and the truncated value with [OK]
    otherwise. *)
Theorem FL2ZoomStep_in_range (self : calculations) (fl : gmap string pyval)
    (coefs : list (list Qc)) (coef : list Qc) (FL p zoomStepMax : Qc) :
  dict_at (calData self) "FL" = Ret fl →
  mat_at fl "coef" = Ret coefs →
  getitem coefs 0 = Ret coef →
  polyval FL coef = Ret p →
  num_at (calData self) "zoomSteps" = Ret zoomStepMax →
  0 ≤ zoomStepMax →
  ∃ zoomStep err, FL2ZoomStep self FL = Ret (zoomStep, err)
    ∧ 0 ≤ zoomStep ∧ zoomStep ≤ zoomStepMax
    ∧ (int p < 0 → zoomStep = 0 ∧ err = ERR_RANGE_MIN)
    ∧ (zoomStepMax < int p → zoomStep = zoomStepMax ∧ err = ERR_RANGE_MAX)
    ∧ (0 ≤ int p → int p ≤ zoomStepMax → zoomStep = int p ∧ err = OK).
Proof.
  intros Hfl Hcoefs Hcoef Hp Hmax Hrange.
  unfold FL2ZoomStep. rewrite (dict_at_contains _ _ _ Hfl). cbn [negb].
  step Hfl. step Hcoefs. step Hcoef. step Hp. step Hmax.
  destruct (decide (int p < 0)) as [Hlo|Hlo];
    [|destruct (decide (zoomStepMax < int p)) as [Hhi|Hhi]];
    eexists _, _; (split; [reflexivity|]);
    (split; [qc_order|]); (split; [qc_order|]);
    (split; [|split]); intros; try (split; reflexivity); exfalso; qc_order.
Qed.

Lemma FL2ZoomStep_in_range_witness :
  ∃ zoomStep err, FL2ZoomStep sample (Qc_of_Z 59) = Ret (zoomStep, err)
    ∧ 0 ≤ zoomStep ∧ zoomStep ≤ Qc_of_Z 4000
    ∧ (int (Qc_of_Z 5000) < 0 → zoomStep = 0 ∧ err = ERR_RANGE_MIN)
    ∧ (Qc_of_Z 4000 < int (Qc_of_Z 5000)
       → zoomStep = Qc_of_Z 4000 ∧ err = ERR_RANGE_MAX)
    ∧ (0 ≤ int (Qc_of_Z 5000) → int (Qc_of_Z 5000) ≤ Qc_of_Z 4000
       → zoomStep = int (Qc_of_Z 5000) ∧ err = OK).
Proof.
  apply (FL2ZoomStep_in_range sample
           {[ "coef" := PList [nums [Qc_of_Z (-900); Qc_of_Z 100]];
              "coefInv" := PList [nums [Qc_of_Z 9; dec 1 100]] ]}
           [[Qc_of_Z (-900); Qc_of_Z 100]] [Qc_of_Z (-900); Qc_of_Z 100]).
  - reflexivity.
  - evaluate.
  - evaluate.
  - evaluate.
  - evaluate.
  - evaluate.
Defined.

(** X6. For an object distance that is not zero, on readable tracking
    data with a focus range [focusSteps ≥ 0], [OD2FocusStep] returns a step
    of the range: the truncated tracking value plus the BFL correction,
    limited to 0 with [ERR_RANGE_MIN] and to [focusSteps] with
    [ERR_RANGE_MAX]. *)
Theorem OD2FocusStep_in_range (self : calculations)
    (tracking : gmap string pyval) (coef : list (list Qc)) (cp1 : list Qc)
    (OD zoomStep BFL v focusStepMax : Qc) :
  dict_at (calData self) "tracking" = Ret tracking →
  mat_at tracking "coef" = Ret coef →
  vec_at tracking "cp1" = Ret cp1 →
  OD ≠ 0 →
  interpolate coef cp1 (Qc_of_Z 1000 / OD) zoomStep = Ret v →
  num_at (calData self) "focusSteps" = Ret focusStepMax →
  0 ≤ focusStepMax →
  ∃ focusStep err, OD2FocusStep self OD zoomStep BFL = Ret (focusStep, err)
    ∧ 0 ≤ focusStep ∧ focusStep ≤ focusStepMax
    ∧ (int v + BFL < 0 → focusStep = 0 ∧ err = ERR_RANGE_MIN)
    ∧ (focusStepMax < int v + BFL
       → focusStep = focusStepMax ∧ err = ERR_RANGE_MAX)
    ∧ (0 ≤ int v + BFL → int v + BFL ≤ focusStepMax
       → focusStep = int v + BFL ∧ err = OK).
Proof.
  intros Htracking Hcoef Hcp1 HOD Hv Hmax Hrange.
  unfold OD2FocusStep. rewrite (dict_at_contains _ _ _ Htracking). cbn [negb].
  rewrite (py_div_nonzero _ _ HOD). cbn [mbind res_bind].
  step Htracking. step Hcoef. step Hcp1. step Hv. step Hmax.
  set (focusStep := int v + BFL) in *.
  destruct (decide (focusStep < 0)) as [Hlo|Hlo];
    [|destruct (decide (focusStepMax < focusStep)) as [Hhi|Hhi]];
    eexists _, _; (split; [reflexivity|]);
    (split; [qc_order|]); (split; [qc_order|]);
    (split; [|split]); intros; try (split; reflexivity); exfalso; qc_order.
Qed.

Lemma OD2FocusStep_in_range_witness :
  ∃ focusStep err,
    OD2FocusStep sample (Qc_of_Z 10) (Qc_of_Z 1000) (Qc_of_Z 3000)
    = Ret (focusStep, err)
    ∧ 0 ≤ focusStep ∧ focusStep ≤ Qc_of_Z 8000
    ∧ (int (Qc_of_Z 5300) + Qc_of_Z 3000 < 0
       → focusStep = 0 ∧ err = ERR_RANGE_MIN)
    ∧ (Qc_of_Z 8000 < int (Qc_of_Z 5300) + Qc_of_Z 3000
       → focusStep = Qc_of_Z 8000 ∧ err = ERR_RANGE_MAX)
    ∧ (0 ≤ int (Qc_of_Z 5300) + Qc_of_Z 3000
       → int (Qc_of_Z 5300) + Qc_of_Z 3000 ≤ Qc_of_Z 8000
       → focusStep = int (Qc_of_Z 5300) + Qc_of_Z 3000 ∧ err = OK).
Proof.
  apply (OD2FocusStep_in_range sample
           {[ "cp1" := nums [0; Qc_of_Z 100; Qc_of_Z 500];
              "coef" := PList (nums <$> [[Qc_of_Z 5000; dec 1 2];
                                         [Qc_of_Z 4800; dec 1 2];
                                         [Qc_of_Z 4000; dec 1 2]]) ]}
           [[Qc_of_Z 5000; dec 1 2]; [Qc_of_Z 4800; dec 1 2];
            [Qc_of_Z 4000; dec 1 2]]
           [0; Qc_of_Z 100; Qc_of_Z 500]).
  - reflexivity.
  - evaluate.
  - evaluate.
  - evaluate.
  - evaluate.
  - evaluate.
  - evaluate.
Defined.

(** ** Divisions without a guard *)

Lemma bind_not_returns {A B} (m : res A) (k : A → res B) :
  (∀ a, ¬ returns (k a)) → ¬ returns (m ≫= k).
Proof.
  intros Hk [b Hb]. destruct m as [a|e]; cbn [mbind res_bind] in Hb.
  - apply (Hk a). by exists b.
  - discriminate.
Qed.

Lemma raise_not_returns {A} (e : exn) : ¬ returns (@Raise A e).
Proof. intros [a Ha]. discriminate. Qed.

Lemma OD2FocusStep_zero (self : calculations) (t : pyval) (zoomStep BFL : Qc) :
  calData self !! "tracking" = Some t →
  OD2FocusStep self 0 zoomStep BFL = Raise ZeroDivisionError.
Proof.
  intros Ht. unfold OD2FocusStep. rewrite (contains_lookup _ _ _ Ht).
  cbn [negb]. by rewrite py_div_zero.
Qed.

(** X7. The object distance 0 and the F-number 0 are divided by without a
    test. With the section ["tracking"] loaded, [OD2FocusStep] raises
    [ZeroDivisionError] at the object distance 0, and [ODFL2FocusStep] and
    (with the section ["dist"] loaded as well) [AOV2MotorSteps] do not
    return. With the section ["AP"] loaded, and whatever else is,
    [fNum2IrisStep] raises [ZeroDivisionError] at the F-number 0.
    [FOV2MotorSteps] is different: with the section ["dist"] loaded, and
    whatever else is, [FOV2AOV] tests for the object distance 0, and the
    result is the status [ERR_CALC]. *)
Theorem zero_divisions `{Numerics} (self : calculations) :
  (∀ t, calData self !! "tracking" = Some t →
     (∀ zoomStep BFL,
        OD2FocusStep self 0 zoomStep BFL = Raise ZeroDivisionError)
     ∧ (∀ FL BFL, ¬ returns (ODFL2FocusStep self 0 FL BFL))
     ∧ (∀ d AOV IH BFL, calData self !! "dist" = Some d →
          ¬ returns (AOV2MotorSteps self AOV IH (PNum 0) BFL)))
  ∧ (∀ d FOV IH BFL, calData self !! "dist" = Some d →
       FOV2MotorSteps self FOV IH (PNum 0) BFL = Ret (0, 0, 0, ERR_CALC))
  ∧ (∀ a FL, calData self !! "AP" = Some a →
       fNum2IrisStep self 0 FL = Raise ZeroDivisionError).
Proof.
  split; [intros t Ht; split; [|split]|split].
  - intros zoomStep BFL. by eapply OD2FocusStep_zero.
  - intros FL BFL. unfold ODFL2FocusStep.
    destruct (decide (calData self = ∅)) as [Hempty|_].
    { rewrite Hempty, lookup_empty in Ht. discriminate. }
    apply bind_not_returns. intros [zoomStep err].
    rewrite (OD2FocusStep_zero _ t) by assumption. apply raise_not_returns.
  - intros d AOV IH BFL Hd. unfold AOV2MotorSteps.
    rewrite (contains_lookup _ _ _ Hd). cbn [negb].
    do 2 (apply bind_not_returns; intros ?).
    apply bind_not_returns; intros [FLLower FLUpper].
    apply bind_not_returns; intros [FLLower' FLUpper'].
    apply bind_not_returns; intros [FLLower'' FLUpper''].
    apply bind_not_returns; intros [FLLower0 FLLower1].
    apply bind_not_returns; intros [FLUpper0 FLUpper1].
    do 3 (apply bind_not_returns; intros ?).
    apply bind_not_returns; intros [zoomStep err].
    cbn [is_str as_num mbind res_bind].
    destruct (decide (0 < 0)) as [Hneg|_]; [exfalso; qc_order|].
    rewrite (OD2FocusStep_zero _ t) by assumption. apply raise_not_returns.
  - intros d FOV IH BFL Hd. unfold FOV2MotorSteps, FOV2AOV.
    rewrite (contains_lookup _ _ _ Hd). cbn [negb].
    replace (is_zero (PNum 0)) with true
      by (symmetry; by apply bool_decide_eq_true).
    rewrite orb_true_r. cbn [orb mbind res_bind].
    by destruct (decide (0 = 0)).
  - intros a FL Ha. unfold fNum2IrisStep.
    rewrite (contains_lookup _ _ _ Ha). cbn [negb].
    unfold FNum2NA. replace (2 * 0) with 0 by ring.
    by rewrite py_div_zero.
Qed.

Lemma zero_divisions_witness :
  OD2FocusStep sample 0 (Qc_of_Z 1000) 0 = Raise ZeroDivisionError
  ∧ ¬ returns (AOV2MotorSteps sample (Qc_of_Z 20) (Qc_of_Z 6) (PNum 0) 0)
  ∧ FOV2MotorSteps single (PNum (Qc_of_Z 3)) (Qc_of_Z 6) (PNum 0) 0
    = Ret (0, 0, 0, ERR_CALC)
  ∧ fNum2IrisStep single 0 (Qc_of_Z 19) = Raise ZeroDivisionError.
Proof.
  destruct (zero_divisions (H:=sample_numerics) sample) as (Htracking & _ & _).
  destruct (Htracking
              (curves [0; Qc_of_Z 100; Qc_of_Z 500]
                      [[Qc_of_Z 5000; dec 1 2];
                       [Qc_of_Z 4800; dec 1 2];
                       [Qc_of_Z 4000; dec 1 2]]))
    as (HOD & _ & HAOV); [reflexivity|].
  destruct (zero_divisions (H:=sample_numerics) single) as (_ & HFOV & HfNum).
  split; [apply HOD|]. split; [|split].
  - eapply HAOV. reflexivity.
  - eapply HFOV. reflexivity.
  - eapply HfNum. reflexivity.
Defined.

(** ** The interpolation primitive with two control points *)

Lemma np_argsort_two (u v : Qc) :
  np_argsort [u; v] = if decide (v < u) then [1; 0]%Z else [0; 1]%Z.
Proof.
  unfold np_argsort.
  change (seqZ 0 (Z.of_nat (length [u; v]))) with [0; 1]%Z.
  cbn [foldl argsort_insert].
  change (default 0 ([u; v] !! Z.to_nat 1)) with v.
  change (default 0 ([u; v] !! Z.to_nat 0)) with u.
  reflexivity.
Qed.

Lemma Qc_sub_nonzero (a b : Qc) : a ≠ b → a - b ≠ 0.
Proof. intros Hab Hz. apply Hab. rewrite <- (Qcplus_0_l b), <- Hz. ring. Qed.

(** X8. With two control points [a] and [b] that differ, [interpolate]
    returns the value at the target [t] of the straight line through the
    values [la] and [lb] of the two curves at [x], between the control
    points and beyond them, whichever of the two is the closer, for a
    target of either kind. With two equal control points the quotient has
    the divisor zero: for a target that is a Python number it raises
    [ZeroDivisionError], for a target that is a NumPy scalar the value is
    not finite. *)
Theorem interpolate_two_control_points (k : kind) (ca cb : list Qc)
    (rest : list (list Qc)) (a b t x la lb : Qc) :
  polyval x ca = Ret la →
  polyval x cb = Ret lb →
  interpolate_as k (ca :: cb :: rest) [a; b] t x
  = if decide (a = b)
    then Raise (match k with
                | python => ZeroDivisionError
                | numpy => NonFinite
                end)
    else Ret (la + (t - a) / (b - a) * (lb - la)).
Proof.
  intros Hla Hlb. unfold interpolate_as.
  destruct (decide (length [a; b] ≤ 1)%nat) as [Hlen|_]; [cbn in Hlen; lia|].
  cbv zeta. unfold np_subtract, np_abs. cbn [fmap list_fmap].
  rewrite np_argsort_two.
  destruct (decide (a = b)) as [<-|Hab].
  - destruct (decide (Qcabs (a - t) < Qcabs (a - t))) as [Hlt|_];
      [exfalso; qc_order|].
    rewrite getitem_0, getitem_1. cbn [mbind res_bind].
    rewrite !getitem_1, !getitem_0. cbn [mbind res_bind].
    rewrite Hla, Hlb. cbn [mbind res_bind].
    replace (a - a) with 0 by ring. rewrite div_zero. by destruct k.
  - assert (Hba : b - a ≠ 0) by (apply Qc_sub_nonzero; congruence).
    assert (Hab' : a - b ≠ 0) by (by apply Qc_sub_nonzero).
    destruct (decide (Qcabs (b - t) < Qcabs (a - t))).
    + rewrite getitem_0, getitem_1. cbn [mbind res_bind].
      rewrite !getitem_1, !getitem_0. cbn [mbind res_bind].
      rewrite Hla, Hlb. cbn [mbind res_bind].
      rewrite div_nonzero by assumption. cbn [mbind res_bind].
      f_equal. qc_field.
    + rewrite getitem_0, getitem_1. cbn [mbind res_bind].
      rewrite !getitem_1, !getitem_0. cbn [mbind res_bind].
      rewrite Hla, Hlb. cbn [mbind res_bind].
      rewrite div_nonzero by assumption. reflexivity.
Qed.

Lemma interpolate_two_control_points_witness :
  interpolate_as numpy [[0; Qc_of_Z 5]; [0; 1]] [Qc_of_Z 9; Qc_of_Z 50]
    (Qc_of_Z 60) (Qc_of_Z 3)
  = Ret (Qc_of_Z 15
         + (Qc_of_Z 60 - Qc_of_Z 9) / (Qc_of_Z 50 - Qc_of_Z 9)
           * (Qc_of_Z 3 - Qc_of_Z 15))
  ∧ interpolate_as numpy [[0; Qc_of_Z 5]; [0; 1]] [Qc_of_Z 9; Qc_of_Z 9]
      (Qc_of_Z 60) (Qc_of_Z 3)
    = Raise NonFinite.
Proof.
  split.
  - rewrite (interpolate_two_control_points numpy [0; Qc_of_Z 5] [0; 1] []
               (Qc_of_Z 9) (Qc_of_Z 50) (Qc_of_Z 60) (Qc_of_Z 3)
               (Qc_of_Z 15) (Qc_of_Z 3)).
    + destruct (decide (Qc_of_Z 9 = Qc_of_Z 50)) as [Heq|_]; [|reflexivity].
      exfalso. revert Heq. evaluate.
    + evaluate.
    + evaluate.
  - rewrite (interpolate_two_control_points numpy [0; Qc_of_Z 5] [0; 1] []
               (Qc_of_Z 9) (Qc_of_Z 9) (Qc_of_Z 60) (Qc_of_Z 3)
               (Qc_of_Z 15) (Qc_of_Z 3)).
    + by destruct (decide (Qc_of_Z 9 = Qc_of_Z 9)).
    + evaluate.
    + evaluate.
Defined.

(** ** Angle and field of view *)

(** Linear arithmetic on the rationals: the operations are taken to their
    counterparts on the fractions. *)
Ltac qc_arith :=
  unfold Qclt, Qcle, Qcminus, Qcplus, Qcopp, Qcmult in *;
  cbn [this Q2Qc] in *;
  repeat (setoid_rewrite Qred_correct);
  repeat match goal with H : _ |- _ => setoid_rewrite Qred_correct in H end;
  lra.

(** X9. The angle of view that [calcAOV] returns is never negative, for a
    sensor width of either sign, and where [calcAOV] returns an angle
    [calcFOV] returns the field of view
    [2 OD tan(radians(AOV / 2))] with the status [OK]. *)
Theorem calcAOV_nonneg `{Numerics} (self : calculations) (d : pyval)
    (sensorWd FL AOV : Qc) (err : string) :
  calData self !! "dist" = Some d →
  calcAOV self sensorWd FL = Ret (AOV, err) →
  0 ≤ AOV ∧ err = OK
  ∧ ∀ OD, calcFOV self sensorWd FL OD
          = Ret (2 * OD * np_tan (np_radians (AOV / 2)), OK).
Proof.
  intros Hd HAOV. unfold calcFOV. rewrite HAOV. cbn [mbind res_bind].
  rewrite (contains_lookup _ _ _ Hd). cbn [negb].
  unfold calcAOV, calcAOV_as in HAOV.
  rewrite (contains_lookup _ _ _ Hd) in HAOV. cbn [negb] in HAOV.
  destruct (dict_at (calData self) "dist") as [dist|]; [|discriminate].
  cbn [mbind res_bind] in HAOV.
  destruct (mat_at dist "coef") as [coef|]; [|discriminate].
  cbn [mbind res_bind] in HAOV.
  destruct (vec_at dist "cp1") as [cp1|]; [|discriminate].
  cbn [mbind res_bind] in HAOV.
  destruct (interpolate_as python coef cp1 FL (sensorWd / 2)) as [v|];
    [|discriminate].
  cbn [mbind res_bind] in HAOV. injection HAOV as <- <-.
  split; [|split; reflexivity].
  pose proof (Qcabs_nonneg v) as Habs. qc_arith.
Qed.

Lemma calcAOV_nonneg_witness :
  0 ≤ dec 990 41 ∧ OK = OK
  ∧ ∀ OD, calcFOV sample (Qc_of_Z (-6)) (Qc_of_Z 19) OD
          = Ret (2 * OD * np_tan (np_radians (dec 990 41 / 2)), OK).
Proof.
  apply (calcAOV_nonneg (H:=sample_numerics) sample
           (curves [Qc_of_Z 9; Qc_of_Z 50] [[0; Qc_of_Z 5]; [0; 1]])
           (Qc_of_Z (-6)) (Qc_of_Z 19)).
  - reflexivity.
  - evaluate.
Defined.

(** ** Depth of field *)

(** X10. Where [calcDOF] returns on data with the section ["iris"], and
    no quotient in it has a zero denominator, the status is [OK], the near
    and the far distance are at most [INFINITY], the far distance is never
    negative, and the depth of field is [INFINITY] when the far distance is,
    and the difference of the two distances otherwise. From an object
    distance of [INFINITY] on, all three are [INFINITY]. *)
Theorem calcDOF_bounds (self : calculations) (i : pyval)
    (irisStep FL OD DOF ODMin ODMax : Qc) (err : string) :
  calData self !! "iris" = Some i →
  calcDOF self irisStep FL OD = Ret (DOF, err, ODMin, ODMax) →
  err = OK
  ∧ ODMin ≤ INFINITY ∧ 0 ≤ ODMax ∧ ODMax ≤ INFINITY
  ∧ DOF = (if decide (ODMax = INFINITY) then INFINITY else ODMax - ODMin)
  ∧ (INFINITY ≤ OD → ODMin = INFINITY ∧ ODMax = INFINITY).
Proof.
  intros Hi HDOF. assert (Hinf : 0 < INFINITY) by evaluate.
  unfold calcDOF in HDOF. rewrite (contains_lookup _ _ _ Hi) in HDOF.
  cbn [negb] in HDOF.
  destruct (decide (INFINITY ≤ OD)) as [Hfar|Hnear].
  { injection HDOF as <- <- <- <-.
    rewrite decide_True by reflexivity.
    repeat split; try reflexivity; qc_order. }
  destruct (dict_at (calData self) "iris") as [iris|]; [|discriminate].
  cbn [mbind res_bind] in HDOF.
  destruct (mat_at iris "coef") as [coef|]; [|discriminate].
  cbn [mbind res_bind] in HDOF.
  destruct (vec_at iris "cp1") as [cp1|]; [|discriminate].
  cbn [mbind res_bind] in HDOF.
  destruct (interpolate coef cp1 FL irisStep) as [sd|]; [|discriminate].
  cbn [mbind res_bind] in HDOF.
  destruct (py_div (FL / Qc_of_Z 1000) OD) as [mag|]; [|discriminate].
  cbn [mbind res_bind] in HDOF.
  destruct (np_div (COC self) (sd * mag)) as [blur|]; [|discriminate].
  cbn [mbind res_bind] in HDOF.
  destruct (np_div OD (1 + blur)) as [near|]; [|discriminate].
  cbn [mbind res_bind] in HDOF.
  destruct (np_div OD (1 - blur)) as [far|]; [|discriminate].
  cbn [mbind res_bind] in HDOF. cbv zeta in HDOF.
  injection HDOF as <- <- <- <-.
  split; [reflexivity|]. unfold py_min.
  split; [destruct (decide (INFINITY < near)); qc_order|].
  split; [|split; [|split; [reflexivity|intros Hfar; contradiction]]].
  - destruct (decide (INFINITY < far)) as [|Hfar];
      destruct (decide (_ < 0)) as [|Hneg]; qc_order.
  - destruct (decide (INFINITY < far)) as [|Hfar];
      destruct (decide (_ < 0)) as [|Hneg]; qc_order.
Qed.

Lemma calcDOF_bounds_witness :
  OK = OK
  ∧ dec 5 3 ≤ INFINITY ∧ 0 ≤ dec 5 2 ∧ dec 5 2 ≤ INFINITY
  ∧ dec 5 6 = (if decide (dec 5 2 = INFINITY) then INFINITY
               else dec 5 2 - dec 5 3)
  ∧ (INFINITY ≤ 2 → dec 5 3 = INFINITY ∧ dec 5 2 = INFINITY).
Proof.
  apply (calcDOF_bounds sample
           (curves [Qc_of_Z 9; Qc_of_Z 50]
                   [[Qc_of_Z 6; dec (-1) 20]; [Qc_of_Z 5; dec (-1) 20]])
           (Qc_of_Z 20) (Qc_of_Z 50) 2).
  - reflexivity.
  - evaluate.
Defined.

(** ** The object distance in the search for motor steps *)

(** One step of a method on both sides of an equation: the same call
    returns on both sides or raises on both. *)
Ltac bind_head :=
  match goal with
  | |- mbind _ ?m = _ =>
      destruct m as [?|?]; cbn [mbind res_bind]; [|reflexivity]
  end;
  repeat match goal with p : (_ * _)%type |- _ => destruct p end.

(** [AOV2MotorSteps] first finds the zoom step, the focal length and the
    range status, from the angle of view and the image height alone, and
    then looks at the object distance. *)
Lemma AOV2MotorSteps_split (self : calculations) (AOV IH : Qc) :
  ∃ found : res (Qc * Qc * string),
    ∀ (OD d : pyval) (BFL : Qc),
      calData self !! "dist" = Some d →
      AOV2MotorSteps self AOV IH OD BFL
      = ('(zoomStep, FLValue, err) ← found;
         if is_str OD then Ret (0, zoomStep, FLValue, ERR_OD_VALUE) else
         od ← as_num OD;
         if decide (od < 0) then Ret (0, zoomStep, FLValue, ERR_OD_VALUE) else
         '(focusStep, _err) ← OD2FocusStep self od zoomStep BFL;
         Ret (focusStep, zoomStep, FLValue, err)).
Proof.
  eexists
    (dist ← dict_at (calData self) "dist";
     cp1 ← vec_at dist "cp1";
     let FLList := np_sort cp1 in
     '(FLLower, FLUpper) ←
       foldM (AOV2MotorSteps_body self AOV IH) (None, None) FLList;
     '(FLLower, FLUpper) ←
       match FLLower with
       | None =>
           FL ← getitem FLList 1;
           '(AOVMax, _err) ← calcAOV_as numpy self IH FL;
           Ret (FLUpper, Some (FL, AOVMax))
       | Some _ => Ret (FLLower, FLUpper)
       end;
     '(FLLower, FLUpper) ←
       match FLUpper with
       | None =>
           FL ← getitem FLList (-2);
           '(AOVMax, _err) ← calcAOV_as numpy self IH FL;
           Ret (Some (FL, AOVMax), FLLower)
       | Some _ => Ret (FLLower, FLUpper)
       end;
     '(FLLower0, FLLower1) ← unpack FLLower;
     '(FLUpper0, FLUpper1) ← unpack FLUpper;
     interpolationFactor ← np_div (AOV - FLLower1) (FLUpper1 - FLLower1);
     let FLValue := FLLower0 + interpolationFactor * (FLUpper0 - FLLower0) in
     flMin ← num_at (calData self) "flMin";
     err ← (if decide (FLValue < flMin) then Ret ERR_RANGE_MIN
            else flMax ← num_at (calData self) "flMax";
                 Ret (if decide (flMax < FLValue) then ERR_RANGE_MAX else OK));
     '(zoomStep, _err) ← FL2ZoomStep self FLValue;
     Ret (zoomStep, FLValue, err)).
  intros OD d BFL Hd. unfold AOV2MotorSteps.
  rewrite (contains_lookup _ _ _ Hd). cbn [negb].
  do 2 bind_head. cbv zeta. do 9 bind_head. reflexivity.
Qed.

(** X11. With the section ["dist"] loaded, where [AOV2MotorSteps]
    returns: for an object distance that is a string or negative the focus
    step is 0 and the status is [ERR_OD_VALUE], in the place of any range
    status of the focal length; and the zoom step and the focal length
    are the same for every object distance and BFL correction.
    [FOV2MotorSteps] does not reach that case for a string: it returns
    zeros and [ERR_CALC]. *)
Theorem AOV2MotorSteps_object_distance `{Numerics} (self : calculations)
    (d : pyval) (AOV IH : Qc) :
  calData self !! "dist" = Some d →
  (∀ OD BFL focusStep zoomStep FLValue err,
     AOV2MotorSteps self AOV IH OD BFL
     = Ret (focusStep, zoomStep, FLValue, err) →
     is_str OD = true ∨ (∃ od, OD = PNum od ∧ od < 0) →
     focusStep = 0 ∧ err = ERR_OD_VALUE)
  ∧ (∀ OD BFL focusStep zoomStep FLValue err
       OD' BFL' focusStep' zoomStep' FLValue' err',
       AOV2MotorSteps self AOV IH OD BFL
       = Ret (focusStep, zoomStep, FLValue, err) →
       AOV2MotorSteps self AOV IH OD' BFL'
       = Ret (focusStep', zoomStep', FLValue', err') →
       zoomStep = zoomStep' ∧ FLValue = FLValue')
  ∧ (∀ FOV s BFL,
       FOV2MotorSteps self FOV IH (PStr s) BFL = Ret (0, 0, 0, ERR_CALC)).
Proof.
  intros Hd. destruct (AOV2MotorSteps_split self AOV IH) as [found Hsplit].
  split; [|split].
  - intros OD BFL focusStep zoomStep FLValue err Hret HOD.
    rewrite (Hsplit OD d BFL Hd) in Hret.
    destruct found as [[[z fl] e]|]; [|discriminate].
    cbn [mbind res_bind] in Hret.
    destruct HOD as [Hstr|(od & -> & Hneg)].
    + rewrite Hstr in Hret. by injection Hret as <- <- <- <-.
    + cbn [is_str as_num mbind res_bind] in Hret.
      rewrite decide_True in Hret by assumption.
      by injection Hret as <- <- <- <-.
  - intros OD BFL focusStep zoomStep FLValue err
      OD' BFL' focusStep' zoomStep' FLValue' err' Hret Hret'.
    rewrite (Hsplit OD d BFL Hd) in Hret.
    rewrite (Hsplit OD' d BFL' Hd) in Hret'.
    destruct found as [[[z fl] e]|]; [|discriminate].
    cbn [mbind res_bind] in Hret, Hret'.
    assert (zoomStep = z ∧ FLValue = fl) as [-> ->].
    { destruct (is_str OD); [by injection Hret as <- <- <- <-|].
      destruct (as_num OD) as [od|]; [|discriminate].
      cbn [mbind res_bind] in Hret.
      destruct (decide (od < 0)); [by injection Hret as <- <- <- <-|].
      destruct (OD2FocusStep self od z BFL) as [[f e0]|]; [|discriminate].
      cbn [mbind res_bind] in Hret. by injection Hret as <- <- <- <-. }
    destruct (is_str OD'); [by injection Hret' as <- <- <- <-|].
    destruct (as_num OD') as [od|]; [|discriminate].
    cbn [mbind res_bind] in Hret'.
    destruct (decide (od < 0)); [by injection Hret' as <- <- <- <-|].
    destruct (OD2FocusStep self od z BFL') as [[f e0]|]; [|discriminate].
    cbn [mbind res_bind] in Hret'. by injection Hret' as <- <- <- <-.
  - intros FOV s BFL. unfold FOV2MotorSteps, FOV2AOV.
    rewrite (contains_lookup _ _ _ Hd). cbn [negb is_str].
    rewrite orb_true_r. cbn [orb mbind res_bind].
    by destruct (decide (0 = 0)).
Qed.

Lemma AOV2MotorSteps_object_distance_witness :
  AOV2MotorSteps sample (Qc_of_Z 20) (Qc_of_Z 6) (PStr "far") 0
  = Ret (0, Qc_of_Z 1708, dec 313 12, ERR_OD_VALUE)
  ∧ (0 = 0 ∧ ERR_OD_VALUE = ERR_OD_VALUE)
  ∧ FOV2MotorSteps sample (PNum (Qc_of_Z 3)) (Qc_of_Z 6) (PStr "far") 0
    = Ret (0, 0, 0, ERR_CALC).
Proof.
  destruct (AOV2MotorSteps_object_distance (H:=sample_numerics) sample
              (curves [Qc_of_Z 9; Qc_of_Z 50] [[0; Qc_of_Z 5]; [0; 1]])
              (Qc_of_Z 20) (Qc_of_Z 6))
    as (Hstr & _ & HFOV); [reflexivity|].
  assert (Hret : AOV2MotorSteps sample (Qc_of_Z 20) (Qc_of_Z 6) (PStr "far") 0
                 = Ret (0, Qc_of_Z 1708, dec 313 12, ERR_OD_VALUE))
    by evaluate.
  split; [exact Hret|]. split; [|apply HFOV].
  apply (Hstr _ _ _ _ _ _ Hret). by left.
Defined.

(** ** Curve sets with fewer than two control points *)

Lemma AOV2MotorSteps_body_first (self : calculations) (AOV IH f : Qc) :
  AOV2MotorSteps_body self AOV IH (None, None) f
  = match calcAOV_as numpy self IH f with
    | Ret (AOVMax, _) =>
        Ret (if decide (AOV < AOVMax) then (Some (f, AOVMax), None)
             else (None, Some (f, AOVMax)))
    | Raise e => Raise e
    end.
Proof.
  unfold AOV2MotorSteps_body.
  destruct (calcAOV_as numpy self IH f) as [[AOVMax err]|e];
    cbn [mbind res_bind];
    [|reflexivity].
  by destruct (decide (AOV < AOVMax)).
Qed.

(** With fewer than two control points [interpolate] does not divide, and
    the angle of view is the same for a focal length of either kind. *)
Lemma calcAOV_as_one_control_point (k : kind) (self : calculations)
    (dist : gmap string pyval) (cp1 : list Qc) (sensorWd FL : Qc) :
  dict_at (calData self) "dist" = Ret dist →
  vec_at dist "cp1" = Ret cp1 →
  (length cp1 ≤ 1)%nat →
  calcAOV_as k self sensorWd FL = calcAOV self sensorWd FL.
Proof.
  intros Hdist Hcp1 Hlen. unfold calcAOV, calcAOV_as.
  destruct (negb (contains (calData self) "dist")); [reflexivity|].
  step Hdist. destruct (mat_at dist "coef") as [coef|e]; [|reflexivity].
  cbn [mbind res_bind]. step Hcp1. unfold interpolate_as.
  by rewrite !decide_True by assumption.
Qed.

(** X12. [AOV2MotorSteps] needs two control points in the section
    ["dist"]: with one or none it does not return, and where [calcAOV]
    returns for the control points it raises [IndexError], at the second
    focal length of the sorted list or at the last but one. *)
Theorem AOV2MotorSteps_one_control_point (self : calculations)
    (dist : gmap string pyval) (cp1 : list Qc) (AOV IH : Qc) (OD : pyval)
    (BFL : Qc) :
  dict_at (calData self) "dist" = Ret dist →
  vec_at dist "cp1" = Ret cp1 →
  (length cp1 ≤ 1)%nat →
  ¬ returns (AOV2MotorSteps self AOV IH OD BFL)
  ∧ ((∀ FL, FL ∈ cp1 → returns (calcAOV self IH FL)) →
     AOV2MotorSteps self AOV IH OD BFL = Raise IndexError).
Proof.
  intros Hdist Hcp1 Hlen. unfold AOV2MotorSteps.
  rewrite (dict_at_contains _ _ _ Hdist). cbn [negb].
  step Hdist. step Hcp1. cbv zeta.
  destruct cp1 as [|f [|g cp1]]; [| |cbn in Hlen; lia].
  - cbn [np_sort foldl foldM mbind res_bind].
    rewrite getitem_nil. cbn [mbind res_bind].
    split; [apply raise_not_returns|reflexivity].
  - change (np_sort [f]) with [f]. cbn [foldM].
    rewrite AOV2MotorSteps_body_first.
    rewrite (calcAOV_as_one_control_point numpy self dist [f])
      by assumption.
    assert (Hsecond : getitem [f] 1 = Raise IndexError) by reflexivity.
    assert (Hlast : getitem [f] (-2) = Raise IndexError) by reflexivity.
    destruct (calcAOV self IH f) as [[AOVMax err]|e] eqn:HAOV;
      cbn [mbind res_bind].
    + destruct (decide (AOV < AOVMax)); cbn [mbind res_bind].
      * rewrite Hlast. cbn [mbind res_bind].
        split; [apply raise_not_returns|reflexivity].
      * rewrite Hsecond. cbn [mbind res_bind].
        split; [apply raise_not_returns|reflexivity].
    + split; [apply raise_not_returns|].
      intros Hreturns. destruct (Hreturns f) as [r Hr]; [set_solver|].
      rewrite HAOV in Hr. discriminate.
Qed.

Lemma AOV2MotorSteps_one_control_point_witness :
  ¬ returns (AOV2MotorSteps single (Qc_of_Z 20) (Qc_of_Z 6)
               (PNum (Qc_of_Z 10)) 0)
  ∧ ((∀ FL, FL ∈ [Qc_of_Z 9] → returns (calcAOV single (Qc_of_Z 6) FL)) →
     AOV2MotorSteps single (Qc_of_Z 20) (Qc_of_Z 6) (PNum (Qc_of_Z 10)) 0
     = Raise IndexError).
Proof.
  apply (AOV2MotorSteps_one_control_point single
           {[ "cp1" := nums [Qc_of_Z 9];
              "coef" := PList (nums <$> [[0; Qc_of_Z 5]]) ]}
           [Qc_of_Z 9]).
  - reflexivity.
  - evaluate.
  - cbn. lia.
Defined.

(** X13. [NA2IrisStep] needs two control points in the section ["AP"]:
    with one or none it does not return, whatever the aperture and the
    focal length. *)
Theorem NA2IrisStep_one_control_point `{Numerics} (self : calculations)
    (ap : gmap string pyval) (cp1 : list Qc) (NA FL : Qc) :
  dict_at (calData self) "AP" = Ret ap →
  vec_at ap "cp1" = Ret cp1 →
  (length cp1 ≤ 1)%nat →
  ¬ returns (NA2IrisStep self NA FL).
Proof.
  intros Hap Hcp1 Hlen. unfold NA2IrisStep.
  rewrite (dict_at_contains _ _ _ Hap). cbn [negb].
  step Hap. step Hcp1.
  destruct cp1 as [|f [|g cp1]]; [| |cbn in Hlen; lia].
  - change (NA2IrisStep_closestFL [] FL) with (@Ret (list Qc) []).
    cbn [mbind res_bind foldM]. rewrite getitem_nil.
    apply raise_not_returns.
  - change (NA2IrisStep_closestFL [f] FL) with (Ret [f - FL + FL]).
    cbn [mbind res_bind].
    apply bind_not_returns. intros [err stepValueList].
    assert (Hsecond : getitem [f - FL + FL] 1 = Raise IndexError)
      by reflexivity.
    rewrite getitem_0, Hsecond. apply raise_not_returns.
Qed.

Lemma NA2IrisStep_one_control_point_witness :
  ¬ returns (NA2IrisStep single (dec 1 5) (Qc_of_Z 19))
  ∧ irisStep2NA single (Qc_of_Z 20) (Qc_of_Z 19) true
    = Ret (dec 27 100, OK, dec 27 100, dec 27 100).
Proof.
  split; [|evaluate].
  apply (NA2IrisStep_one_control_point (H:=sample_numerics) single
           {[ "cp1" := nums [Qc_of_Z 9];
              "coef" := PList (nums <$> [[dec 1 3; dec (-1) 300]]) ]}
           [Qc_of_Z 9]).
  - reflexivity.
  - evaluate.
  - cbn. lia.
Defined.

(** ** Loading calibration data *)

(** X14. [loadData] replaces the calibration dict of the object: the
    status is [ERR_NO_CAL] exactly for the empty dict, the dict is stored
    in both cases, a later load leaves nothing of an earlier one, and the
    circle of confusion and the BFL correction samples and coefficients of
    the object are kept through the load. *)
Theorem loadData_replaces (self : calculations) (data data' : gmap string pyval) :
  ((loadData self data).1 = ERR_NO_CAL ↔ data = ∅)
  ∧ ((loadData self data).1 = OK ↔ data ≠ ∅)
  ∧ calData (loadData self data).2 = data
  ∧ COC (loadData self data).2 = COC self
  ∧ BFLCorrectionValues (loadData self data).2 = BFLCorrectionValues self
  ∧ BFLCorrectionCoeffs (loadData self data).2 = BFLCorrectionCoeffs self
  ∧ (loadData (loadData self data).2 data').2 = (loadData self data').2.
Proof.
  unfold loadData.
  destruct (decide (data = ∅)) as [Hdata|Hdata];
    destruct (decide (data' = ∅)); cbn [fst snd calData COC
      BFLCorrectionValues BFLCorrectionCoeffs];
    repeat split; try done; intros Hstatus; discriminate Hstatus.
Qed.

(** ** The BFL correction samples *)

(** X15. [removeBFLCorrectionByIndex] leaves the object as it is and
    returns the samples for an index that is negative (there is no counting
    from the end) or not below the number of samples. For an index of the
    list the sample is deleted and stays deleted whether the fit that
    follows returns or raises; the calibration data and the circle of
    confusion are not touched. *)
Theorem removeBFLCorrectionByIndex_values `{Numerics} (self : calculations)
    (idx : Z) :
  let n := Z.of_nat (length (BFLCorrectionValues self)) in
  let self' := (removeBFLCorrectionByIndex self idx).2 in
  ((idx < 0 ∨ n ≤ idx)%Z →
     removeBFLCorrectionByIndex self idx = (Ret (BFLCorrectionValues self), self))
  ∧ ((0 ≤ idx < n)%Z →
       BFLCorrectionValues self'
       = delete (Z.to_nat idx) (BFLCorrectionValues self)
       ∧ Z.of_nat (length (BFLCorrectionValues self')) = (n - 1)%Z)
  ∧ calData self' = calData self
  ∧ COC self' = COC self.
Proof.
  intros n self'. subst n self'. unfold removeBFLCorrectionByIndex.
  set (values := BFLCorrectionValues self).
  destruct (decide (idx < 0 ∨ Z.of_nat (length values) ≤ idx)%Z) as [Hout|Hin].
  { split; [reflexivity|]. split; [lia|]. split; reflexivity. }
  split; [intros Hout; contradiction|].
  unfold fitBFLCorrection. cbn [BFLCorrectionValues set_BFLCorrectionValues].
  assert (Hlen : Z.of_nat (length (delete (Z.to_nat idx) values))
                 = (Z.of_nat (length values) - 1)%Z).
  { rewrite length_delete; [lia|]. apply lookup_lt_is_Some. lia. }
  destruct (fitBFLCorrection_coeffs (delete (Z.to_nat idx) values));
    cbn [snd BFLCorrectionValues calData COC set_BFLCorrectionValues
         set_BFLCorrectionCoeffs];
    (split; [intros _; split; [reflexivity|exact Hlen]|split; reflexivity]).
Qed.

Lemma removeBFLCorrectionByIndex_values_witness :
  removeBFLCorrectionByIndex (H:=sample_numerics)
    (set_BFLCorrectionValues sample [[Qc_of_Z 19; Qc_of_Z 11; INFINITY]]) (-1)
  = (Ret [[Qc_of_Z 19; Qc_of_Z 11; INFINITY]],
     set_BFLCorrectionValues sample [[Qc_of_Z 19; Qc_of_Z 11; INFINITY]]).
Proof.
  destruct (removeBFLCorrectionByIndex_values (H:=sample_numerics)
              (set_BFLCorrectionValues sample
                 [[Qc_of_Z 19; Qc_of_Z 11; INFINITY]]) (-1))
    as [Hout _].
  apply Hout. left. lia.
Defined.

(** Every sample of the lemmas below is a row [[FL, shift, OD]]. On such
    rows the transpose is the list of the three columns. *)
Lemma np_transpose_rows3 (values : list (list Qc)) :
  values ≠ [] →
  Forall (λ r : list Qc, length r = 3%nat) values →
  np_transpose values = [column 0 values; column 1 values; column 2 values].
Proof.
  induction values as [|r rs IH]; [done|]. intros _ Hrows.
  inversion Hrows as [|r0 rs0 Hr Hrs]; subst.
  destruct r as [|a [|b [|c [|]]]]; try discriminate Hr.
  destruct rs as [|r' rs']; [reflexivity|].
  change (np_transpose ([a; b; c] :: r' :: rs'))
    with (zip_with cons [a; b; c] (np_transpose (r' :: rs'))).
  rewrite IH by done. reflexivity.
Qed.

(** On samples that are rows of three numbers the fit returns: the shift
    of the only sample, or the least-squares line or parabola of the shifts
    over the focal lengths. *)
Lemma fitBFLCorrection_coeffs_rows3 `{Numerics} (values : list (list Qc)) :
  values ≠ [] →
  Forall (λ r : list Qc, length r = 3%nat) values →
  fitBFLCorrection_coeffs values
  = Ret (if decide (length values = 1%nat) then column 1 values
         else if decide (length values ≤ 3)%nat
              then lstsq (column 0 values) (column 1 values) 1
              else lstsq (column 0 values) (column 1 values) 2).
Proof.
  intros Hne Hrows. unfold fitBFLCorrection_coeffs. cbv zeta.
  rewrite np_transpose_rows3 by assumption.
  rewrite getitem_0, getitem_1. cbn [mbind res_bind].
  assert (Hfit : ∀ deg, polyfit (column 0 values) (column 1 values) deg
                        = Ret (lstsq (column 0 values) (column 1 values) deg)).
  { intros deg. unfold polyfit, column.
    destruct values as [|r rs]; [done|]. cbn [fmap list_fmap].
    rewrite decide_True; [reflexivity|].
    cbn [length]. by rewrite !length_fmap. }
  destruct (decide (length values = 1%nat)); [reflexivity|].
  destruct (decide (length values ≤ 3)%nat); apply Hfit.
Qed.

Lemma addBFLCorrection_object `{Numerics} (self : calculations)
    (focusStep FL OD design : Qc) (err : string) :
  ODFL2FocusStep self OD FL 0 = Ret (design, err) →
  Forall (λ r : list Qc, length r = 3%nat) (BFLCorrectionValues self) →
  let values := BFLCorrectionValues self ++ [[FL; focusStep - design; OD]] in
  ∃ coeffs, fitBFLCorrection_coeffs values = Ret coeffs
    ∧ addBFLCorrection self focusStep FL OD
      = (Ret values,
         {| calData := calData self; COC := COC self;
            BFLCorrectionValues := values;
            BFLCorrectionCoeffs := coeffs |}).
Proof.
  intros Hdesign Hrows values. unfold addBFLCorrection. rewrite Hdesign.
  cbv zeta. unfold fitBFLCorrection.
  cbn [BFLCorrectionValues set_BFLCorrectionValues]. fold values.
  assert (Hne : values ≠ [])
    by (subst values; by destruct (BFLCorrectionValues self)).
  assert (Hrows' : Forall (λ r : list Qc, length r = 3%nat) values).
  { subst values. apply Forall_app. split; [assumption|].
    by apply Forall_singleton. }
  rewrite (fitBFLCorrection_coeffs_rows3 values Hne Hrows').
  eexists. split; reflexivity.
Qed.

(** X16. The first sample that [addBFLCorrection] stores is the row of the
    focal length, the difference of the focus step and the design focus step
    of [ODFL2FocusStep], and the object distance; the status of
    [ODFL2FocusStep] is not looked at. The coefficients are then that
    difference alone, the constant polynomial. On an object without
    calibration data the design step is 0, and the difference is the focus
    step. *)
Theorem addBFLCorrection_first_sample `{Numerics} (self : calculations)
    (focusStep FL OD design : Qc) (err : string) :
  ODFL2FocusStep self OD FL 0 = Ret (design, err) →
  BFLCorrectionValues self = [] →
  let shift := focusStep - design in
  let self' := (addBFLCorrection self focusStep FL OD).2 in
  (addBFLCorrection self focusStep FL OD).1 = Ret [[FL; shift; OD]]
  ∧ BFLCorrectionValues self' = [[FL; shift; OD]]
  ∧ BFLCorrectionCoeffs self' = [shift]
  ∧ ∀ FL', polyval FL' (BFLCorrectionCoeffs self') = Ret shift.
Proof.
  intros Hdesign Hempty shift self'. subst self'.
  destruct (addBFLCorrection_object self focusStep FL OD design err Hdesign)
    as (coeffs & Hfit & Hadd); [by rewrite Hempty|].
  rewrite Hempty in Hfit, Hadd. cbn [app] in Hfit, Hadd.
  rewrite fitBFLCorrection_coeffs_one in Hfit. injection Hfit as <-.
  rewrite Hadd. cbn [fst snd BFLCorrectionValues BFLCorrectionCoeffs].
  split; [reflexivity|]. split; [reflexivity|]. split; [reflexivity|].
  intros FL'. apply polyval_constant.
Qed.

Lemma addBFLCorrection_first_sample_witness :
  (addBFLCorrection (H:=sample_numerics) init (Qc_of_Z 5510) (Qc_of_Z 19)
     INFINITY).1
  = Ret [[Qc_of_Z 19; Qc_of_Z 5510 - 0; INFINITY]]
  ∧ BFLCorrectionCoeffs
      (addBFLCorrection (H:=sample_numerics) init (Qc_of_Z 5510)
         (Qc_of_Z 19) INFINITY).2
    = [Qc_of_Z 5510 - 0].
Proof.
  destruct (addBFLCorrection_first_sample (H:=sample_numerics) init
              (Qc_of_Z 5510) (Qc_of_Z 19) INFINITY 0 ERR_NO_CAL)
    as (Hret & _ & Hcoeffs & _).
  - reflexivity.
  - reflexivity.
  - split; [exact Hret|exact Hcoeffs].
Defined.

(** ** The degree of the BFL correction *)

(** The samples are rows of three numbers, and while there is a sample
    the coefficients are the fit of the samples: this holds of a new
    object and is kept by every call, whether it returns or raises. *)
Lemma BFLCorrection_invariant_after `{Numerics} (self : calculations) (c : call) :
  Forall (λ r : list Qc, length r = 3%nat) (BFLCorrectionValues self) →
  (BFLCorrectionValues self ≠ [] →
   fitBFLCorrection_coeffs (BFLCorrectionValues self)
   = Ret (BFLCorrectionCoeffs self)) →
  Forall (λ r : list Qc, length r = 3%nat) (BFLCorrectionValues (after self c))
  ∧ (BFLCorrectionValues (after self c) ≠ [] →
     fitBFLCorrection_coeffs (BFLCorrectionValues (after self c))
     = Ret (BFLCorrectionCoeffs (after self c))).
Proof.
  intros Hrows Hfit. destruct c as [data|coc|focusStep FL OD|idx]; cbn [after].
  - unfold loadData. by destruct (decide (data = ∅)).
  - rewrite loadCOC_object. by cbn.
  - destruct (ODFL2FocusStep self OD FL 0) as [[design err]|e] eqn:Hdesign.
    + destruct (addBFLCorrection_object self focusStep FL OD design err
                  Hdesign Hrows) as (coeffs & Hcoeffs & ->).
      cbn [snd BFLCorrectionValues BFLCorrectionCoeffs].
      split; [|by intros _].
      apply Forall_app. split; [assumption|]. by apply Forall_singleton.
    + unfold addBFLCorrection. rewrite Hdesign. by cbn.
  - unfold removeBFLCorrectionByIndex.
    destruct (decide (idx < 0 ∨ _)%Z); [by cbn|].
    cbv zeta. unfold fitBFLCorrection.
    cbn [BFLCorrectionValues set_BFLCorrectionValues].
    set (values := delete (Z.to_nat idx) (BFLCorrectionValues self)).
    assert (Hrows' : Forall (λ r : list Qc, length r = 3%nat) values).
    { subst values. by apply Forall_delete. }
    destruct values as [|r rs] eqn:Hvalues.
    + rewrite fitBFLCorrection_coeffs_nil. cbn. by split.
    + rewrite fitBFLCorrection_coeffs_rows3 by done.
      cbn [snd BFLCorrectionValues BFLCorrectionCoeffs set_BFLCorrectionValues
           set_BFLCorrectionCoeffs].
      split; [assumption|]. intros _.
      by rewrite fitBFLCorrection_coeffs_rows3 by done.
Qed.

Lemma BFLCorrection_invariant `{Numerics} (cs : list call) :
  Forall (λ r : list Qc, length r = 3%nat)
    (BFLCorrectionValues (after_all init cs))
  ∧ (BFLCorrectionValues (after_all init cs) ≠ [] →
     fitBFLCorrection_coeffs (BFLCorrectionValues (after_all init cs))
     = Ret (BFLCorrectionCoeffs (after_all init cs))).
Proof.
  assert (Hall : ∀ self,
    Forall (λ r : list Qc, length r = 3%nat) (BFLCorrectionValues self)
    ∧ (BFLCorrectionValues self ≠ [] →
       fitBFLCorrection_coeffs (BFLCorrectionValues self)
       = Ret (BFLCorrectionCoeffs self)) →
    Forall (λ r : list Qc, length r = 3%nat)
      (BFLCorrectionValues (after_all self cs))
    ∧ (BFLCorrectionValues (after_all self cs) ≠ [] →
       fitBFLCorrection_coeffs (BFLCorrectionValues (after_all self cs))
       = Ret (BFLCorrectionCoeffs (after_all self cs)))).
  { unfold after_all. induction cs as [|c cs IH]; intros self Hself; [exact Hself|].
    cbn [foldl]. apply IH. destruct Hself as [Hrows Hfit].
    by apply BFLCorrection_invariant_after. }
  apply Hall. split; [by apply Forall_nil|done].
Qed.

Lemma polyval_returns (x : Qc) (c : list Qc) :
  c ≠ [] → ∃ v, polyval x c = Ret v.
Proof.
  intros Hc. unfold polyval. destruct (reverse c) as [|cn cs] eqn:Hrev.
  - apply (f_equal length) in Hrev. rewrite length_reverse in Hrev.
    by destruct c.
  - by eexists.
Qed.

Lemma polyval_line (x c0 c1 : Qc) : polyval x [c0; c1] = Ret (c0 + c1 * x).
Proof. unfold polyval. cbn. f_equal. ring. Qed.

Lemma polyval_parabola (x c0 c1 c2 : Qc) :
  polyval x [c0; c1; c2] = Ret (c0 + c1 * x + c2 * x * x).
Proof. unfold polyval. cbn. f_equal. ring. Qed.

(** After every sequence of calls on a new object that leaves a sample,
    the coefficients are the fit of the samples that are left. *)
Lemma BFLCorrectionCoeffs_fitted `{Numerics} (cs : list call) :
  let self := after_all init cs in
  let values := BFLCorrectionValues self in
  (values ≠ [] →
   BFLCorrectionCoeffs self
   = if decide (length values = 1%nat) then column 1 values
     else if decide (length values ≤ 3)%nat
          then lstsq (column 0 values) (column 1 values) 1
          else lstsq (column 0 values) (column 1 values) 2)
  ∧ Forall (λ r : list Qc, length r = 3%nat) values.
Proof.
  intros self values.
  destruct (BFLCorrection_invariant cs) as [Hrows Hfit].
  fold self in Hrows, Hfit. fold values in Hrows, Hfit.
  split; [|assumption]. intros Hne. specialize (Hfit Hne).
  rewrite fitBFLCorrection_coeffs_rows3 in Hfit by assumption.
  by injection Hfit.
Qed.

(** X17. After every sequence of calls on a new object, where [polyfit]
    returns one coefficient per degree, the coefficients that
    [BFLCorrection] evaluates follow the number of samples: with one sample
    they are the shift of the sample, the same value at every focal length;
    with two or three samples they are the least-squares line of the shifts
    over the focal lengths; with four or more samples they are their
    least-squares parabola. The object distance of the samples plays no
    part. *)
Theorem BFLCorrectionCoeffs_degree `{Numerics} (cs : list call) :
  lstsq_shape →
  let self := after_all init cs in
  let values := BFLCorrectionValues self in
  (length values = 1%nat →
     ∃ shift, column 1 values = [shift]
       ∧ BFLCorrectionCoeffs self = [shift]
       ∧ ∀ FL, polyval FL (BFLCorrectionCoeffs self) = Ret shift)
  ∧ ((2 ≤ length values ≤ 3)%nat →
     ∃ c0 c1, lstsq (column 0 values) (column 1 values) 1 = [c0; c1]
       ∧ BFLCorrectionCoeffs self = [c0; c1]
       ∧ ∀ FL, polyval FL (BFLCorrectionCoeffs self) = Ret (c0 + c1 * FL))
  ∧ ((4 ≤ length values)%nat →
     ∃ c0 c1 c2, lstsq (column 0 values) (column 1 values) 2 = [c0; c1; c2]
       ∧ BFLCorrectionCoeffs self = [c0; c1; c2]
       ∧ ∀ FL, polyval FL (BFLCorrectionCoeffs self)
               = Ret (c0 + c1 * FL + c2 * FL * FL)).
Proof.
  intros Hshape self values.
  destruct (BFLCorrectionCoeffs_fitted cs) as [Hcoeffs _].
  fold self in Hcoeffs. fold values in Hcoeffs.
  assert (Hne : (1 ≤ length values)%nat → values ≠ []).
  { intros Hn Hnil. rewrite Hnil in Hn. cbn in Hn. lia. }
  split; [|split].
  - intros Hn. pose proof (Hcoeffs (Hne ltac:(lia))) as Hself.
    rewrite decide_True in Hself by assumption.
    assert (Hlen : length (column 1 values) = 1%nat)
      by (unfold column; by rewrite length_fmap).
    destruct (column 1 values) as [|shift [|]]; try discriminate Hlen.
    exists shift. split; [reflexivity|]. split; [assumption|].
    intros FL. rewrite Hself. apply polyval_constant.
  - intros Hn.
    pose proof (Hshape (column 0 values) (column 1 values) 1%nat) as Hlen.
    pose proof (Hcoeffs (Hne ltac:(lia))) as Hself.
    rewrite decide_False, decide_True in Hself by lia.
    destruct (lstsq (column 0 values) (column 1 values) 1)
      as [|c0 [|c1 [|]]]; try discriminate Hlen.
    exists c0, c1. split; [reflexivity|]. split; [assumption|].
    intros FL. rewrite Hself. apply polyval_line.
  - intros Hn.
    pose proof (Hshape (column 0 values) (column 1 values) 2%nat) as Hlen.
    pose proof (Hcoeffs (Hne ltac:(lia))) as Hself.
    rewrite !decide_False in Hself by lia.
    destruct (lstsq (column 0 values) (column 1 values) 2)
      as [|c0 [|c1 [|c2 [|]]]]; try discriminate Hlen.
    exists c0, c1, c2. split; [reflexivity|]. split; [assumption|].
    intros FL. rewrite Hself. apply polyval_parabola.
Qed.

Lemma sample_lstsq_shape : @lstsq_shape sample_numerics.
Proof.
  intros x y deg. cbn [lstsq sample_numerics]. unfold sample_lstsq.
  by rewrite length_fmap, length_seq.
Qed.

Lemma BFLCorrectionCoeffs_degree_witness :
  let self := after_all (H:=sample_numerics) init
    [call_loadData sample_calData;
     call_addBFLCorrection (Qc_of_Z 5510) (Qc_of_Z 19) INFINITY;
     call_addBFLCorrection (Qc_of_Z 6082) (Qc_of_Z 30) INFINITY] in
  BFLCorrectionValues self
  = [[Qc_of_Z 19; Qc_of_Z 11; INFINITY]; [Qc_of_Z 30; Qc_of_Z 33; INFINITY]]
  ∧ BFLCorrectionCoeffs self = [Qc_of_Z (-27); Qc_of_Z 2]
  ∧ ∀ FL, polyval FL (BFLCorrectionCoeffs self)
          = Ret (Qc_of_Z (-27) + Qc_of_Z 2 * FL).
Proof.
  intros self.
  destruct (BFLCorrectionCoeffs_degree (H:=sample_numerics)
              [call_loadData sample_calData;
               call_addBFLCorrection (Qc_of_Z 5510) (Qc_of_Z 19) INFINITY;
               call_addBFLCorrection (Qc_of_Z 6082) (Qc_of_Z 30) INFINITY]
              sample_lstsq_shape) as (_ & Hline & _).
  destruct Hline as (c0 & c1 & Hfit & Hcoeffs & Hvalue); [vm_compute; lia|].
  fold self in Hfit, Hcoeffs, Hvalue.
  assert (Hvalues : BFLCorrectionValues self
    = [[Qc_of_Z 19; Qc_of_Z 11; INFINITY]; [Qc_of_Z 30; Qc_of_Z 33; INFINITY]])
    by evaluate.
  rewrite Hvalues in Hfit.
  assert (Hsample : lstsq (Numerics:=sample_numerics)
            (column 0 [[Qc_of_Z 19; Qc_of_Z 11; INFINITY];
                       [Qc_of_Z 30; Qc_of_Z 33; INFINITY]])
            (column 1 [[Qc_of_Z 19; Qc_of_Z 11; INFINITY];
                       [Qc_of_Z 30; Qc_of_Z 33; INFINITY]]) 1
          = [Qc_of_Z (-27); Qc_of_Z 2]) by evaluate.
  rewrite Hsample in Hfit. injection Hfit as <- <-.
  split; [exact Hvalues|]. split; [exact Hcoeffs|exact Hvalue].
Defined.

(** X21. [BFLCorrection] returns 0 on a new object. Once the object holds
    a sample the coefficients are a NumPy array that is not empty, and the
    test [self.BFLCorrectionCoeffs == []] is NumPy's: where the comparison
    raises, [BFLCorrection] raises the same at every focal length; where it
    is false, [BFLCorrection] returns the truncated value of the polynomial
    of the coefficients at the focal length. The object distance plays no
    part. *)
Theorem BFLCorrection_compares `{Numerics} (cs : list call) :
  lstsq_shape →
  let self := after_all init cs in
  (∀ FL OD, BFLCorrection init FL OD = Ret 0)
  ∧ (BFLCorrectionValues self ≠ [] →
     BFLCorrectionCoeffs self ≠ []
     ∧ ∀ FL OD,
         match ndarray_eq_nil (BFLCorrectionCoeffs self) with
         | Raise e => BFLCorrection self FL OD = Raise e
         | Ret true => BFLCorrection self FL OD = Ret 0
         | Ret false =>
             ∃ v, polyval FL (BFLCorrectionCoeffs self) = Ret v
                  ∧ BFLCorrection self FL OD = Ret (int v)
         end).
Proof.
  intros Hshape self. split; [reflexivity|]. intros Hne.
  destruct (BFLCorrectionCoeffs_fitted cs) as [Hcoeffs _].
  fold self in Hcoeffs. specialize (Hcoeffs Hne).
  assert (Hnonempty : BFLCorrectionCoeffs self ≠ []).
  { rewrite Hcoeffs. intros Hnil. apply (f_equal length) in Hnil.
    destruct (decide (length (BFLCorrectionValues self) = 1%nat)) as [Hn|_].
    - unfold column in Hnil. rewrite length_fmap, Hn in Hnil. discriminate.
    - destruct (decide (length (BFLCorrectionValues self) ≤ 3)%nat);
        rewrite Hshape in Hnil; discriminate. }
  split; [assumption|]. intros FL OD.
  unfold BFLCorrection, BFLCorrectionCoeffs_eq_nil.
  destruct (BFLCorrectionCoeffs self) as [|c coeffs] eqn:Hself; [done|].
  destruct (ndarray_eq_nil (c :: coeffs)) as [[|]|e]; cbn [mbind res_bind];
    try reflexivity.
  destruct (polyval_returns FL (c :: coeffs)) as [v Hv]; [done|].
  exists v. split; [assumption|]. by rewrite Hv.
Qed.

Lemma BFLCorrection_compares_witness :
  let self := after_all (H:=sample_numerics) init
    [call_loadData sample_calData;
     call_addBFLCorrection (Qc_of_Z 5510) (Qc_of_Z 19) INFINITY] in
  BFLCorrectionCoeffs self = [Qc_of_Z 11]
  ∧ ∀ FL OD, BFLCorrection self FL OD = Raise ValueError.
Proof.
  intros self.
  destruct (BFLCorrection_compares (H:=sample_numerics)
              [call_loadData sample_calData;
               call_addBFLCorrection (Qc_of_Z 5510) (Qc_of_Z 19) INFINITY]
              sample_lstsq_shape) as (_ & Hfitted).
  assert (Hne : BFLCorrectionValues self ≠ []).
  { subst self. vm_compute. discriminate. }
  destruct (Hfitted Hne) as [_ Hraises].
  split; [subst self; evaluate|]. intros FL OD.
  specialize (Hraises FL OD). cbn [ndarray_eq_nil sample_numerics] in Hraises.
  exact Hraises.
Defined.

(** ** The F-number from the iris step *)

Lemma Qc_half_inv_pos (x : Qc) : 0 < x → 0 < 1 / (2 * x).
Proof.
  intros Hx. assert (Hnz : x ≠ 0) by (intros ->; qc_order).
  apply (Qcmult_lt_mono_pos_r _ _ (2 * x)); [qc_arith|].
  replace (1 / (2 * x) * (2 * x)) with 1 by qc_field.
  rewrite Qcmult_0_l. evaluate.
Qed.

Lemma Qc_half_inv_antitone (x y : Qc) :
  0 < x → x ≤ y → 1 / (2 * y) ≤ 1 / (2 * x).
Proof.
  intros Hx Hxy.
  assert (Hy : 0 < y) by qc_order.
  assert (Hxnz : x ≠ 0) by (intros ->; qc_order).
  assert (Hynz : y ≠ 0) by (intros ->; qc_order).
  apply (Qcmult_le_mono_pos_r _ _ (2 * x * (2 * y))).
  { apply Qcmult_pos_pos; qc_arith. }
  replace (1 / (2 * y) * (2 * x * (2 * y))) with (2 * x) by qc_field.
  replace (1 / (2 * x) * (2 * x * (2 * y))) with (2 * y) by qc_field.
  qc_arith.
Qed.

(** X18. On readable data with a positive design F-number and a positive
    aperture at the iris step 0, [irisStep2FNum] returns: the numeric
    aperture of [irisStep2NA], limited to its range, and its two bounds are
    positive, and the result is the F-number [1/(2 NA)] of each with the
    status of [irisStep2NA]. The value named [FNumMin] is the F-number of
    [NAMin] and the value named [FNumMax] that of [NAMax], so that, where
    [NAMin ≤ NAMax], the F-number lies from [FNumMax] up to [FNumMin]. *)
Theorem irisStep2FNum_bounds (self : calculations) (ap : gmap string pyval)
    (coef : list (list Qc)) (cp1 : list Qc)
    (irisStep FL irisSteps fnum raw lo hi : Qc) :
  dict_at (calData self) "AP" = Ret ap →
  mat_at ap "coef" = Ret coef →
  vec_at ap "cp1" = Ret cp1 →
  interpolate coef cp1 FL irisStep = Ret raw →
  num_at (calData self) "irisSteps" = Ret irisSteps →
  interpolate coef cp1 FL irisSteps = Ret lo →
  interpolate coef cp1 FL 0 = Ret hi →
  num_at (calData self) "fnum" = Ret fnum →
  0 < fnum → 0 < hi →
  let NAMax := py_min hi (1 / (2 * fnum)) in
  let NAMin := py_max lo (dec 1 100) in
  let err := if decide (NAMax < raw) then ERR_NA_MAX
             else if decide (raw < NAMin) then ERR_NA_MIN else OK in
  let NA := if decide (NAMax < raw) then NAMax
            else if decide (raw < NAMin) then NAMin else raw in
  irisStep2FNum self irisStep FL
  = Ret (1 / (2 * NA), err, 1 / (2 * NAMin), 1 / (2 * NAMax))
  ∧ (NAMin ≤ NAMax →
     1 / (2 * NAMax) ≤ 1 / (2 * NA) ∧ 1 / (2 * NA) ≤ 1 / (2 * NAMin)).
Proof.
  intros Hap Hcoef Hcp1 Hraw Hsteps Hlo Hhi Hfnum Hpos Hhipos
    NAMax NAMin err NA.
  assert (Hnz : fnum ≠ 0) by (intros ->; qc_order).
  assert (Hcal : 0 < 1 / (2 * fnum)) by (by apply Qc_half_inv_pos).
  assert (Hcent : 0 < dec 1 100) by evaluate.
  assert (HNAMax : 0 < NAMax).
  { subst NAMax. unfold py_min. by destruct (decide (1 / (2 * fnum) < hi)). }
  assert (HNAMin : 0 < NAMin).
  { subst NAMin. unfold py_max.
    destruct (decide (lo < dec 1 100)); [assumption|qc_order]. }
  assert (HNA : 0 < NA).
  { subst NA. destruct (decide (NAMax < raw)); [assumption|].
    destruct (decide (raw < NAMin)); [assumption|qc_order]. }
  split.
  - unfold irisStep2FNum. rewrite (dict_at_contains _ _ _ Hap). cbn [negb].
    rewrite (irisStep2NA_value self ap coef cp1 irisStep FL irisSteps fnum
               raw lo hi) by assumption.
    fold NAMax NAMin.
    assert (Hresult :
      (if decide (NAMax < raw) then (NAMax, ERR_NA_MAX, NAMin, NAMax)
       else if decide (raw < NAMin) then (NAMin, ERR_NA_MIN, NAMin, NAMax)
            else (raw, OK, NAMin, NAMax)) = (NA, err, NAMin, NAMax)).
    { subst NA err. destruct (decide (NAMax < raw)); [reflexivity|].
      by destruct (decide (raw < NAMin)). }
    rewrite Hresult. cbn [mbind res_bind]. unfold NA2FNum. cbn [div].
    rewrite !np_div_nonzero
      by (apply Qc_double_nonzero; intros Hz; rewrite Hz in *; qc_order).
    reflexivity.
  - intros Hbounds.
    assert (NAMin ≤ NA ∧ NA ≤ NAMax) as [Hge Hle].
    { subst NA. destruct (decide (NAMax < raw)); [split; qc_order|].
      destruct (decide (raw < NAMin)); split; qc_order. }
    split; by apply Qc_half_inv_antitone.
Qed.

Lemma irisStep2FNum_bounds_witness :
  irisStep2FNum sample (Qc_of_Z 20) (Qc_of_Z 19)
  = Ret (dec 615 308, OK, dec 492 77, dec 123 77)
  ∧ dec 123 77 ≤ dec 615 308 ∧ dec 615 308 ≤ dec 492 77.
Proof.
  pose proof (irisStep2FNum_bounds sample
    {[ "cp1" := nums [Qc_of_Z 9; Qc_of_Z 50];
       "coef" := PList (nums <$> [[dec 1 3; dec (-1) 300];
                                  [dec 1 4; dec (-1) 400]]) ]}
    [[dec 1 3; dec (-1) 300]; [dec 1 4; dec (-1) 400]]
    [Qc_of_Z 9; Qc_of_Z 50]
    (Qc_of_Z 20) (Qc_of_Z 19) (Qc_of_Z 75) (dec 14 10)
    (dec 154 615) (dec 77 984) (dec 77 246)) as Hbounds.
  destruct Hbounds as [Hret Hord].
  - reflexivity.
  - evaluate.
  - evaluate.
  - evaluate.
  - evaluate.
  - evaluate.
  - evaluate.
  - evaluate.
  - evaluate.
  - evaluate.
  - split; [rewrite Hret; evaluate|].
    destruct Hord as [Hlo Hhi]; [evaluate|].
    split; [revert Hlo|revert Hhi]; evaluate.
Defined.

(** ** The guards of the object distance *)

(** X19. On readable tracking data [focusStep2OD] evaluates every
    tracking curve at the zoom step and adds the BFL correction; the first
    of these focus steps belongs to the first control point and the last to
    the last one. A focus step more than 100 above the first gives
    [(0, ERR_OD_MAX)] and otherwise one more than 400 below the last gives
    [(0, ERR_OD_MIN)], both without a fit; otherwise the object distance is
    1000 over the value [v ≠ 0] of the cubic fit at the focus step, with
    [ERR_OD_MAX] when it is negative and else [ERR_OD_MIN] when it is below
    [ODMin]. The bounds returned are those of the data, or 2 and
    [INFINITY] where the data has none. *)
Theorem focusStep2OD_guards `{Numerics} (self : calculations)
    (tracking : gmap string pyval) (cp1List : list Qc)
    (coefList : list (list Qc)) (fsl : list Qc)
    (focusStep zoomStep BFL first last ODMin ODMax : Qc) :
  dict_at (calData self) "tracking" = Ret tracking →
  vec_at tracking "cp1" = Ret cp1List →
  mat_at tracking "coef" = Ret coefList →
  focusStep2OD_focusStepList coefList cp1List zoomStep BFL = Ret fsl →
  getitem fsl 0 = Ret first →
  getitem fsl (-1) = Ret last →
  (if contains (calData self) "odMin" then num_at (calData self) "odMin"
   else Ret OD_MIN_DEFAULT) = Ret ODMin →
  (if contains (calData self) "odMax" then num_at (calData self) "odMax"
   else Ret INFINITY) = Ret ODMax →
  (∃ c v, getitem coefList 0 = Ret c ∧ polyval zoomStep c = Ret v
          ∧ first = v + BFL)
  ∧ (∃ c v, getitem coefList (Z.of_nat (length cp1List) - 1) = Ret c
            ∧ polyval zoomStep c = Ret v ∧ last = v + BFL)
  ∧ (first + Qc_of_Z 100 < focusStep →
     focusStep2OD self focusStep zoomStep BFL
     = Ret (0, ERR_OD_MAX, ODMin, ODMax))
  ∧ (¬ first + Qc_of_Z 100 < focusStep →
     focusStep < last - Qc_of_Z 400 →
     focusStep2OD self focusStep zoomStep BFL
     = Ret (0, ERR_OD_MIN, ODMin, ODMax))
  ∧ (¬ first + Qc_of_Z 100 < focusStep →
     ¬ focusStep < last - Qc_of_Z 400 →
     ∀ v, polyval focusStep (lstsq fsl cp1List 3) = Ret v → v ≠ 0 →
       focusStep2OD self focusStep zoomStep BFL
       = Ret (Qc_of_Z 1000 / v,
              (if decide (Qc_of_Z 1000 / v < 0) then ERR_OD_MAX
               else if decide (Qc_of_Z 1000 / v < ODMin) then ERR_OD_MIN
               else OK),
              ODMin, ODMax)).
Proof.
  intros Htracking Hcp1 Hcoef Hfsl Hfirst Hlast HODMin HODMax.
  destruct (focusStep2OD_focusStepList_lookup _ _ _ _ _ Hfsl) as [Hlen Hlook].
  destruct (getitem_lookup _ _ _ Hfirst) as (j0 & Hj0 & Hj0len & Hj0idx).
  destruct (getitem_lookup _ _ _ Hlast) as (j1 & Hj1 & Hj1len & Hj1idx).
  rewrite decide_False in Hj0idx by lia.
  rewrite decide_True in Hj1idx by lia.
  split; [|split].
  { destruct (Hlook j0 first Hj0) as (c & v & Hc & Hv & ->).
    rewrite Hj0idx in Hc. by exists c, v. }
  { destruct (Hlook j1 last Hj1) as (c & v & Hc & Hv & ->).
    rewrite Hj1idx, Hlen in Hc.
    replace (-1 + Z.of_nat (length cp1List))%Z
      with (Z.of_nat (length cp1List) - 1)%Z in Hc by lia.
    by exists c, v. }
  assert (Hrun : focusStep2OD self focusStep zoomStep BFL
    = (if decide (first + DONT_CALC_MAX_OVER < focusStep) then
         Ret (0, ERR_OD_MAX, ODMin, ODMax)
       else if decide (focusStep < last - DONT_CALC_MIN_UNDER) then
         Ret (0, ERR_OD_MIN, ODMin, ODMax)
       else
         v ← polyval focusStep (lstsq fsl cp1List 3);
         OD ← np_div (Qc_of_Z 1000) v;
         Ret (OD, (if decide (OD < 0) then ERR_OD_MAX
                   else if decide (OD < ODMin) then ERR_OD_MIN else OK),
              ODMin, ODMax))).
  { unfold focusStep2OD. rewrite (dict_at_contains _ _ _ Htracking).
    cbn [negb]. step Htracking. step Hcp1. step Hcoef. step Hfsl.
    step HODMin. step HODMax. step Hfirst.
    destruct (decide (first + DONT_CALC_MAX_OVER < focusStep)); [reflexivity|].
    step Hlast.
    destruct (decide (focusStep < last - DONT_CALC_MIN_UNDER)); [reflexivity|].
    unfold polyfit. destruct fsl as [|s fsl']; [cbn in Hj0len; lia|].
    rewrite decide_True by assumption. reflexivity. }
  rewrite Hrun. unfold DONT_CALC_MAX_OVER, DONT_CALC_MIN_UNDER.
  split; [|split].
  - intros Hover. by rewrite decide_True.
  - intros Hover Hunder. by rewrite decide_False, decide_True.
  - intros Hover Hunder v Hv Hnz. rewrite !decide_False by assumption.
    step Hv. rewrite np_div_nonzero by assumption. reflexivity.
Qed.

Lemma focusStep2OD_guards_witness :
  focusStep2OD (H:=sample_numerics) sample (Qc_of_Z 5700) (Qc_of_Z 1000) 0
  = Ret (0, ERR_OD_MAX, 2, INFINITY)
  ∧ focusStep2OD (H:=sample_numerics) sample (Qc_of_Z 4000) (Qc_of_Z 1000) 0
    = Ret (0, ERR_OD_MIN, 2, INFINITY)
  ∧ focusStep2OD (H:=sample_numerics) sample (Qc_of_Z 5400) (Qc_of_Z 1000) 0
    = Ret (Qc_of_Z 1000 / Qc_of_Z 50,
           (if decide (Qc_of_Z 1000 / Qc_of_Z 50 < 0) then ERR_OD_MAX
            else if decide (Qc_of_Z 1000 / Qc_of_Z 50 < 2) then ERR_OD_MIN
            else OK),
           2, INFINITY).
Proof.
  assert (Hguards : ∀ focusStep,
    (Qc_of_Z 5500 + Qc_of_Z 100 < focusStep →
     focusStep2OD (H:=sample_numerics) sample focusStep (Qc_of_Z 1000) 0
     = Ret (0, ERR_OD_MAX, 2, INFINITY))
    ∧ (¬ Qc_of_Z 5500 + Qc_of_Z 100 < focusStep →
       focusStep < Qc_of_Z 4500 - Qc_of_Z 400 →
       focusStep2OD (H:=sample_numerics) sample focusStep (Qc_of_Z 1000) 0
       = Ret (0, ERR_OD_MIN, 2, INFINITY))
    ∧ (¬ Qc_of_Z 5500 + Qc_of_Z 100 < focusStep →
       ¬ focusStep < Qc_of_Z 4500 - Qc_of_Z 400 →
       ∀ v, polyval focusStep
              (lstsq (Numerics:=sample_numerics)
                 [Qc_of_Z 5500; Qc_of_Z 5300; Qc_of_Z 4500]
                 [0; Qc_of_Z 100; Qc_of_Z 500] 3) = Ret v → v ≠ 0 →
         focusStep2OD (H:=sample_numerics) sample focusStep (Qc_of_Z 1000) 0
         = Ret (Qc_of_Z 1000 / v,
                (if decide (Qc_of_Z 1000 / v < 0) then ERR_OD_MAX
                 else if decide (Qc_of_Z 1000 / v < 2) then ERR_OD_MIN
                 else OK),
                2, INFINITY))).
  { intros focusStep.
    apply (focusStep2OD_guards (H:=sample_numerics) sample
             {[ "cp1" := nums [0; Qc_of_Z 100; Qc_of_Z 500];
                "coef" := PList (nums <$> [[Qc_of_Z 5000; dec 1 2];
                                           [Qc_of_Z 4800; dec 1 2];
                                           [Qc_of_Z 4000; dec 1 2]]) ]}
             [0; Qc_of_Z 100; Qc_of_Z 500]
             [[Qc_of_Z 5000; dec 1 2]; [Qc_of_Z 4800; dec 1 2];
              [Qc_of_Z 4000; dec 1 2]]
             [Qc_of_Z 5500; Qc_of_Z 5300; Qc_of_Z 4500]
             focusStep (Qc_of_Z 1000) 0).
    - reflexivity.
    - evaluate.
    - evaluate.
    - evaluate.
    - evaluate.
    - evaluate.
    - evaluate.
    - evaluate. }
  split; [|split].
  - apply (Hguards (Qc_of_Z 5700)). evaluate.
  - apply (Hguards (Qc_of_Z 4000)); evaluate.
  - apply (Hguards (Qc_of_Z 5400)); evaluate.
Defined.

(** ** The interpolation primitive in general *)

Lemma argsort_insert_perm (key : Z → Qc) (i : Z) (sorted : list Z) :
  argsort_insert key i sorted ≡ₚ i :: sorted.
Proof.
  induction sorted as [|j rest IH]; cbn [argsort_insert]; [reflexivity|].
  destruct (decide (key i < key j)); [reflexivity|].
  rewrite IH. apply Permutation_swap.
Qed.

Lemma argsort_insert_sorted (key : Z → Qc) (i : Z) (sorted : list Z) :
  StronglySorted (λ a b, key a ≤ key b) sorted →
  StronglySorted (λ a b, key a ≤ key b) (argsort_insert key i sorted).
Proof.
  induction sorted as [|j rest IH]; cbn [argsort_insert]; intros Hsorted.
  { apply SSorted_cons; [constructor|apply Forall_nil_2]. }
  apply StronglySorted_inv in Hsorted as [Hrest Hj].
  destruct (decide (key i < key j)) as [Hlt|Hge].
  - apply SSorted_cons; [by apply SSorted_cons|].
    apply Forall_cons_2; [qc_order|].
    eapply List.Forall_impl; [|exact Hj]. cbn. intros k Hk. qc_order.
  - apply SSorted_cons; [by apply IH|].
    rewrite argsort_insert_perm. apply Forall_cons_2; [qc_order|done].
Qed.

Lemma np_argsort_sorted (a : list Qc) :
  let key i := default 0 (a !! Z.to_nat i) in
  np_argsort a ≡ₚ seqZ 0 (Z.of_nat (length a))
  ∧ StronglySorted (λ i j, key i ≤ key j) (np_argsort a).
Proof.
  intros key. unfold np_argsort. fold key.
  assert (Hfold : ∀ l acc,
    StronglySorted (λ i j, key i ≤ key j) acc →
    foldl (λ sorted i, argsort_insert key i sorted) acc l ≡ₚ l ++ acc
    ∧ StronglySorted (λ i j, key i ≤ key j)
        (foldl (λ sorted i, argsort_insert key i sorted) acc l)).
  { induction l as [|i l IH]; intros acc Hacc; cbn [foldl]; [done|].
    destruct (IH (argsort_insert key i acc)) as [Hperm Hsorted];
      [by apply argsort_insert_sorted|].
    split; [|done]. rewrite Hperm, argsort_insert_perm.
    cbn [app]. by rewrite Permutation_middle. }
  destruct (Hfold (seqZ 0 (Z.of_nat (length a))) []) as [Hperm Hsorted];
    [constructor|].
  split; [|done]. by rewrite Hperm, app_nil_r.
Qed.

Lemma getitem_nonneg {A} (l : list A) (i : Z) (x : A) :
  (0 ≤ i)%Z → l !! Z.to_nat i = Some x → getitem l i = Ret x.
Proof.
  intros Hi Hx. unfold getitem. cbv zeta.
  pose proof (lookup_lt_Some _ _ _ Hx) as Hlt.
  destruct (decide (i < 0)%Z) as [|_]; [lia|].
  destruct (decide (0 ≤ i < Z.of_nat (length l))%Z) as [_|]; [|lia].
  by rewrite Hx.
Qed.

(** X20. With two or more control points, a coefficient list per control
    point and no empty coefficient list, [interpolate] picks a control point
    [a] nearest to the target [t] and a control point [b] nearest among the
    others, and returns the value at [t] of the straight line through the
    values [la] and [lb] of their two curves at [x], for a target of
    either kind; where the two picked control points are equal the quotient
    has the divisor zero: a target that is a Python number raises
    [ZeroDivisionError], for a target that is a NumPy scalar the value is
    not finite. Control points further away play no part, also for a target
    outside the control points. *)
Theorem interpolate_nearest (kd : kind) (coefList : list (list Qc))
    (cp1List : list Qc) (t x : Qc) :
  (2 ≤ length cp1List)%nat →
  length coefList = length cp1List →
  Forall (λ c, c ≠ []) coefList →
  ∃ (j0 j1 : nat) (a b la lb : Qc) (ca cb : list Qc),
    j0 ≠ j1
    ∧ cp1List !! j0 = Some a ∧ cp1List !! j1 = Some b
    ∧ coefList !! j0 = Some ca ∧ coefList !! j1 = Some cb
    ∧ polyval x ca = Ret la ∧ polyval x cb = Ret lb
    ∧ (∀ k c, cp1List !! k = Some c → Qcabs (a - t) ≤ Qcabs (c - t))
    ∧ (∀ k c, k ≠ j0 → cp1List !! k = Some c → Qcabs (b - t) ≤ Qcabs (c - t))
    ∧ interpolate_as kd coefList cp1List t x
      = if decide (a = b)
        then Raise (match kd with
                    | python => ZeroDivisionError
                    | numpy => NonFinite
                    end)
        else Ret (la + (t - a) / (b - a) * (lb - la)).
Proof.
  intros Hlen Hcoefs Hnonempty.
  set (keys := np_abs (np_subtract cp1List t)).
  assert (Hkeys : ∀ k c, cp1List !! k = Some c →
            default 0 (keys !! Z.to_nat (Z.of_nat k)) = Qcabs (c - t)).
  { intros k c Hk. rewrite Nat2Z.id. subst keys. unfold np_abs, np_subtract.
    by rewrite !list_lookup_fmap, Hk. }
  assert (Hklen : length keys = length cp1List).
  { subst keys. unfold np_abs, np_subtract. by rewrite !length_fmap. }
  destruct (np_argsort_sorted keys) as [Hperm Hsorted]. rewrite Hklen in Hperm.
  destruct (np_argsort keys) as [|i0 [|i1 rest]] eqn:Hidx.
  { apply Permutation_length in Hperm. rewrite length_seqZ in Hperm.
    cbn in Hperm. lia. }
  { apply Permutation_length in Hperm. rewrite length_seqZ in Hperm.
    cbn in Hperm. lia. }
  assert (Hrange : ∀ i, i ∈ i0 :: i1 :: rest →
            (0 ≤ i < Z.of_nat (length cp1List))%Z).
  { intros i Hin. rewrite Hperm in Hin. apply elem_of_seqZ in Hin. lia. }
  assert (Hi0 : (0 ≤ i0 < Z.of_nat (length cp1List))%Z)
    by (apply Hrange; left).
  assert (Hi1 : (0 ≤ i1 < Z.of_nat (length cp1List))%Z)
    by (apply Hrange; right; left).
  assert (Hdup : NoDup (i0 :: i1 :: rest))
    by (rewrite Hperm; apply NoDup_seqZ).
  assert (Hne : i0 ≠ i1).
  { inversion Hdup as [|? ? Hnotin _]; subst.
    intros ->. apply Hnotin. left. }
  apply StronglySorted_inv in Hsorted as [Hsorted Hfirst].
  apply StronglySorted_inv in Hsorted as [_ Hsecond].
  destruct (lookup_lt_is_Some_2 cp1List (Z.to_nat i0)) as [a Ha]; [lia|].
  destruct (lookup_lt_is_Some_2 cp1List (Z.to_nat i1)) as [b Hb]; [lia|].
  destruct (lookup_lt_is_Some_2 coefList (Z.to_nat i0)) as [ca Hca]; [lia|].
  destruct (lookup_lt_is_Some_2 coefList (Z.to_nat i1)) as [cb Hcb]; [lia|].
  destruct (polyval_returns x ca) as [la Hla].
  { eapply Forall_lookup_1 in Hnonempty; [|exact Hca]. done. }
  destruct (polyval_returns x cb) as [lb Hlb].
  { eapply Forall_lookup_1 in Hnonempty; [|exact Hcb]. done. }
  exists (Z.to_nat i0), (Z.to_nat i1), a, b, la, lb, ca, cb.
  split; [lia|]. do 6 (split; [assumption|]).
  assert (Hkey0 : default 0 (keys !! Z.to_nat i0) = Qcabs (a - t)).
  { rewrite <- (Hkeys _ _ Ha). by rewrite Z2Nat.id by lia. }
  assert (Hkey1 : default 0 (keys !! Z.to_nat i1) = Qcabs (b - t)).
  { rewrite <- (Hkeys _ _ Hb). by rewrite Z2Nat.id by lia. }
  split; [|split].
  - intros k c Hk. rewrite <- Hkey0, <- (Hkeys _ _ Hk).
    pose proof (lookup_lt_Some _ _ _ Hk) as Hklt.
    assert (Hin : Z.of_nat k ∈ i0 :: i1 :: rest).
    { rewrite Hperm. apply elem_of_seqZ. lia. }
    apply elem_of_cons in Hin as [Heq|Hin]; [rewrite Heq; apply Qcle_refl|].
    rewrite list.Forall_forall in Hfirst. by apply Hfirst.
  - intros k c Hkne Hk. rewrite <- Hkey1, <- (Hkeys _ _ Hk).
    pose proof (lookup_lt_Some _ _ _ Hk) as Hklt.
    assert (Hin : Z.of_nat k ∈ i0 :: i1 :: rest).
    { rewrite Hperm. apply elem_of_seqZ. lia. }
    apply elem_of_cons in Hin as [Heq|Hin]; [lia|].
    apply elem_of_cons in Hin as [Heq|Hin]; [rewrite Heq; apply Qcle_refl|].
    rewrite list.Forall_forall in Hsecond. by apply Hsecond.
  - unfold interpolate_as. rewrite decide_False by lia. cbv zeta.
    fold keys. rewrite Hidx, getitem_0, getitem_1. cbn [mbind res_bind].
    rewrite (getitem_nonneg coefList i0 ca), (getitem_nonneg coefList i1 cb)
      by (assumption || lia).
    cbn [mbind res_bind]. rewrite Hla, Hlb. cbn [mbind res_bind].
    rewrite (getitem_nonneg cp1List i0 a), (getitem_nonneg cp1List i1 b)
      by (assumption || lia).
    cbn [mbind res_bind].
    destruct (decide (a = b)) as [<-|Hab].
    + replace (a - a) with 0 by ring. by rewrite div_zero.
    + rewrite div_nonzero by (apply Qc_sub_nonzero; congruence).
      reflexivity.
Qed.

Lemma interpolate_nearest_witness :
  ∃ (j0 j1 : nat) (a b la lb : Qc) (ca cb : list Qc),
    j0 ≠ j1
    ∧ [0; Qc_of_Z 100; Qc_of_Z 500] !! j0 = Some a
    ∧ [0; Qc_of_Z 100; Qc_of_Z 500] !! j1 = Some b
    ∧ [[Qc_of_Z 5000; dec 1 2]; [Qc_of_Z 4800; dec 1 2];
       [Qc_of_Z 4000; dec 1 2]] !! j0 = Some ca
    ∧ [[Qc_of_Z 5000; dec 1 2]; [Qc_of_Z 4800; dec 1 2];
       [Qc_of_Z 4000; dec 1 2]] !! j1 = Some cb
    ∧ polyval (Qc_of_Z 1000) ca = Ret la ∧ polyval (Qc_of_Z 1000) cb = Ret lb
    ∧ (∀ k c, [0; Qc_of_Z 100; Qc_of_Z 500] !! k = Some c →
         Qcabs (a - Qc_of_Z 150) ≤ Qcabs (c - Qc_of_Z 150))
    ∧ (∀ k c, k ≠ j0 → [0; Qc_of_Z 100; Qc_of_Z 500] !! k = Some c →
         Qcabs (b - Qc_of_Z 150) ≤ Qcabs (c - Qc_of_Z 150))
    ∧ interpolate
        [[Qc_of_Z 5000; dec 1 2]; [Qc_of_Z 4800; dec 1 2];
         [Qc_of_Z 4000; dec 1 2]]
        [0; Qc_of_Z 100; Qc_of_Z 500] (Qc_of_Z 150) (Qc_of_Z 1000)
      = if decide (a = b) then Raise ZeroDivisionError
        else Ret (la + (Qc_of_Z 150 - a) / (b - a) * (lb - la)).
Proof.
  apply (interpolate_nearest python
           [[Qc_of_Z 5000; dec 1 2]; [Qc_of_Z 4800; dec 1 2];
            [Qc_of_Z 4000; dec 1 2]]
           [0; Qc_of_Z 100; Qc_of_Z 500] (Qc_of_Z 150) (Qc_of_Z 1000)).
  - cbn. lia.
  - reflexivity.
  - repeat (constructor; [discriminate|]). constructor.
Defined.

(** * Policies and preconditions *)

(** ** The degree policy and the comparison with the empty list *)

(** C5. After every sequence of calls on a new object that leaves a
    sample, where [polyfit] returns one coefficient per degree, the fit
    follows the degree policy: one coefficient for one sample, the two of
    a line for two or three samples, the three of a parabola for four or
    more, and never more. [BFLCorrection] does not always get to
    evaluate them: it first compares the coefficient array with [[]], and
    where NumPy raises [ValueError] on that comparison [BFLCorrection]
    raises it at every focal length; where the comparison is false,
    [BFLCorrection] returns the truncated value of the polynomial. *)
Theorem BFLCorrection_degree_policy `{Numerics} (cs : list call) :
  lstsq_shape →
  let self := after_all init cs in
  let n := length (BFLCorrectionValues self) in
  (1 ≤ n)%nat →
  length (BFLCorrectionCoeffs self)
  = (if decide (n = 1)%nat then 1 else if decide (n ≤ 3)%nat then 2 else 3)%nat
  ∧ (ndarray_eq_nil (BFLCorrectionCoeffs self) = Raise ValueError →
     ∀ FL OD, BFLCorrection self FL OD = Raise ValueError)
  ∧ (ndarray_eq_nil (BFLCorrectionCoeffs self) = Ret false →
     ∀ FL OD, ∃ v, polyval FL (BFLCorrectionCoeffs self) = Ret v
                   ∧ BFLCorrection self FL OD = Ret (int v)).
Proof.
  intros Hshape self n Hn.
  destruct (BFLCorrectionCoeffs_fitted cs) as [Hcoeffs _].
  fold self in Hcoeffs.
  assert (Hne : BFLCorrectionValues self ≠ []).
  { intros Hnil. subst n. rewrite Hnil in Hn. cbn in Hn. lia. }
  specialize (Hcoeffs Hne). fold n in Hcoeffs.
  assert (Hlen : length (BFLCorrectionCoeffs self)
    = (if decide (n = 1)%nat then 1 else if decide (n ≤ 3)%nat then 2 else 3)%nat).
  { rewrite Hcoeffs. destruct (decide (n = 1)%nat) as [Hone|_].
    - unfold column. by rewrite length_fmap.
    - destruct (decide (n ≤ 3)%nat); apply Hshape. }
  split; [exact Hlen|].
  unfold BFLCorrection, BFLCorrectionCoeffs_eq_nil.
  destruct (BFLCorrectionCoeffs self) as [|c coeffs] eqn:Hself.
  { exfalso. cbn in Hlen. destruct (decide (n = 1)%nat); [lia|].
    destruct (decide (n ≤ 3)%nat); lia. }
  split.
  - intros Hraises FL OD. by rewrite Hraises.
  - intros Hfalse FL OD. rewrite Hfalse. cbn [mbind res_bind].
    destruct (polyval_returns FL (c :: coeffs)) as [v Hv]; [done|].
    exists v. split; [assumption|]. by rewrite Hv.
Qed.

Lemma BFLCorrection_degree_policy_witness :
  let self := after_all (H:=sample_numerics) init
    [call_loadData sample_calData;
     call_addBFLCorrection (Qc_of_Z 5510) (Qc_of_Z 19) INFINITY;
     call_addBFLCorrection (Qc_of_Z 6082) (Qc_of_Z 30) INFINITY] in
  length (BFLCorrectionCoeffs self) = 2%nat
  ∧ ∀ FL OD, BFLCorrection self FL OD = Raise ValueError.
Proof.
  intros self.
  destruct (BFLCorrection_degree_policy (H:=sample_numerics)
              [call_loadData sample_calData;
               call_addBFLCorrection (Qc_of_Z 5510) (Qc_of_Z 19) INFINITY;
               call_addBFLCorrection (Qc_of_Z 6082) (Qc_of_Z 30) INFINITY]
              sample_lstsq_shape) as (Hlen & Hraises & _).
  - vm_compute. lia.
  - split; [subst self; vm_compute; reflexivity|].
    apply Hraises. reflexivity.
Defined.

(** ** The object distance from the focus step, outcome by outcome *)

Lemma getitem_last {A} (l : list A) (x : A) :
  l !! (length l - 1)%nat = Some x → getitem l (-1) = Ret x.
Proof.
  intros Hx. pose proof (lookup_lt_Some _ _ _ Hx) as Hlt.
  unfold getitem. cbv zeta.
  destruct (decide (-1 < 0)%Z) as [_|]; [|lia].
  destruct (decide (0 ≤ -1 + Z.of_nat (length l) < Z.of_nat (length l))%Z)
    as [_|]; [|lia].
  replace (Z.to_nat (-1 + Z.of_nat (length l))) with (length l - 1)%nat by lia.
  by rewrite Hx.
Qed.

(** The two ends of the focus step list: the curve of the first control
    point, the infinity end, and the curve of the last one, the near end,
    at the zoom step and with the BFL correction. *)
Lemma focusStep2OD_focusStepList_ends (coefList : list (list Qc))
    (cp1List fsl cInf cNear : list Qc) (zoomStep BFL vInf vNear : Qc) :
  focusStep2OD_focusStepList coefList cp1List zoomStep BFL = Ret fsl →
  cp1List ≠ [] →
  getitem coefList 0 = Ret cInf →
  polyval zoomStep cInf = Ret vInf →
  getitem coefList (Z.of_nat (length cp1List) - 1) = Ret cNear →
  polyval zoomStep cNear = Ret vNear →
  length fsl = length cp1List
  ∧ getitem fsl 0 = Ret (vInf + BFL)
  ∧ getitem fsl (-1) = Ret (vNear + BFL).
Proof.
  intros Hfsl Hne HcInf HvInf HcNear HvNear.
  destruct (focusStep2OD_focusStepList_lookup _ _ _ _ _ Hfsl) as [Hlen Hlook].
  assert (Hpos : (0 < length fsl)%nat).
  { rewrite Hlen. destruct cp1List; [done|cbn; lia]. }
  split; [assumption|]. split.
  - destruct (lookup_lt_is_Some_2 fsl 0 Hpos) as [s Hs].
    destruct (Hlook 0%nat s Hs) as (c & v & Hc & Hv & ->).
    change (Z.of_nat 0) with 0%Z in Hc.
    rewrite HcInf in Hc. injection Hc as <-.
    rewrite HvInf in Hv. injection Hv as <-.
    by apply getitem_nonneg.
  - destruct (lookup_lt_is_Some_2 fsl (length fsl - 1)) as [s Hs]; [lia|].
    destruct (Hlook _ s Hs) as (c & v & Hc & Hv & ->).
    replace (Z.of_nat (length fsl - 1)) with (Z.of_nat (length cp1List) - 1)%Z
      in Hc by lia.
    rewrite HcNear in Hc. injection Hc as <-.
    rewrite HvNear in Hv. injection Hv as <-.
    by apply getitem_last.
Qed.

Lemma Qc_inv_neg (v : Qc) : v < 0 → Qc_of_Z 1000 / v < 0.
Proof.
  intros Hv. assert (Hnz : v ≠ 0) by (intros ->; qc_order).
  assert (Hprod : Qc_of_Z 1000 / v * v = Qc_of_Z 1000) by qc_field.
  apply Qcnot_le_lt. intros Hge.
  assert (Hle : Qc_of_Z 1000 / v * v ≤ Qc_of_Z 1000 / v * 0)
    by (apply Qcmult_le_mono_nonneg_l; [assumption|qc_order]).
  rewrite Hprod, Qcmult_0_r in Hle. revert Hle. evaluate.
Qed.

Lemma Qc_inv_pos (v : Qc) : 0 < v → ¬ Qc_of_Z 1000 / v < 0.
Proof.
  intros Hv Hneg. assert (Hnz : v ≠ 0) by (intros ->; qc_order).
  assert (Hprod : Qc_of_Z 1000 / v * v = Qc_of_Z 1000) by qc_field.
  apply (Qcmult_lt_mono_pos_r _ _ v Hv) in Hneg.
  rewrite Hprod, Qcmult_0_l in Hneg. revert Hneg. evaluate.
Qed.

(** C7. On readable tracking data with a control point, [focusStep2OD]
    compares the focus step with the two ends of the tracking curves at the
    zoom step, each with the BFL correction added. More than 100 steps
    above the infinity end, the curve of control point 0, it returns 0
    with [ERR_OD_MAX]; otherwise, more than 400 steps below the near end,
    the curve of the last control point, it returns 0 with [ERR_OD_MIN];
    neither fits. Otherwise it fits the cubic from the focus steps of all
    control points to the control points and returns 1000 over its value
    [v] at the focus step: with [ERR_OD_MAX] for a negative value, and for
    a positive one with [ERR_OD_MIN] when the object distance is below
    [ODMin] and with [OK] when it is not. The value 0 gives no finite
    object distance. *)
Theorem focusStep2OD_object_distance `{Numerics} (self : calculations)
    (tracking : gmap string pyval) (cp1List : list Qc)
    (coefList : list (list Qc)) (fsl cInf cNear : list Qc)
    (focusStep zoomStep BFL vInf vNear ODMin ODMax : Qc) :
  lstsq_shape →
  dict_at (calData self) "tracking" = Ret tracking →
  vec_at tracking "cp1" = Ret cp1List →
  mat_at tracking "coef" = Ret coefList →
  cp1List ≠ [] →
  focusStep2OD_focusStepList coefList cp1List zoomStep BFL = Ret fsl →
  getitem coefList 0 = Ret cInf →
  polyval zoomStep cInf = Ret vInf →
  getitem coefList (Z.of_nat (length cp1List) - 1) = Ret cNear →
  polyval zoomStep cNear = Ret vNear →
  (if contains (calData self) "odMin" then num_at (calData self) "odMin"
   else Ret OD_MIN_DEFAULT) = Ret ODMin →
  (if contains (calData self) "odMax" then num_at (calData self) "odMax"
   else Ret INFINITY) = Ret ODMax →
  let infinityEnd := vInf + BFL in
  let nearEnd := vNear + BFL in
  (infinityEnd + Qc_of_Z 100 < focusStep →
   focusStep2OD self focusStep zoomStep BFL
   = Ret (0, ERR_OD_MAX, ODMin, ODMax))
  ∧ (focusStep ≤ infinityEnd + Qc_of_Z 100 →
     focusStep < nearEnd - Qc_of_Z 400 →
     focusStep2OD self focusStep zoomStep BFL
     = Ret (0, ERR_OD_MIN, ODMin, ODMax))
  ∧ (focusStep ≤ infinityEnd + Qc_of_Z 100 →
     nearEnd - Qc_of_Z 400 ≤ focusStep →
     ∃ v, polyval focusStep (lstsq fsl cp1List 3) = Ret v
       ∧ (v < 0 →
          focusStep2OD self focusStep zoomStep BFL
          = Ret (Qc_of_Z 1000 / v, ERR_OD_MAX, ODMin, ODMax))
       ∧ (0 < v → Qc_of_Z 1000 / v < ODMin →
          focusStep2OD self focusStep zoomStep BFL
          = Ret (Qc_of_Z 1000 / v, ERR_OD_MIN, ODMin, ODMax))
       ∧ (0 < v → ODMin ≤ Qc_of_Z 1000 / v →
          focusStep2OD self focusStep zoomStep BFL
          = Ret (Qc_of_Z 1000 / v, OK, ODMin, ODMax))
       ∧ (v = 0 →
          focusStep2OD self focusStep zoomStep BFL = Raise NonFinite)).
Proof.
  intros Hshape Htracking Hcp1 Hcoef Hne Hfsl HcInf HvInf HcNear HvNear HODMin HODMax
    infinityEnd nearEnd.
  destruct (focusStep2OD_focusStepList_ends _ _ _ _ _ _ _ _ _
              Hfsl Hne HcInf HvInf HcNear HvNear) as (Hlen & Hfirst & Hlast).
  fold infinityEnd in Hfirst. fold nearEnd in Hlast.
  assert (Hrun : focusStep2OD self focusStep zoomStep BFL
    = (if decide (infinityEnd + DONT_CALC_MAX_OVER < focusStep) then
         Ret (0, ERR_OD_MAX, ODMin, ODMax)
       else if decide (focusStep < nearEnd - DONT_CALC_MIN_UNDER) then
         Ret (0, ERR_OD_MIN, ODMin, ODMax)
       else
         v ← polyval focusStep (lstsq fsl cp1List 3);
         OD ← np_div (Qc_of_Z 1000) v;
         Ret (OD, (if decide (OD < 0) then ERR_OD_MAX
                   else if decide (OD < ODMin) then ERR_OD_MIN else OK),
              ODMin, ODMax))).
  { unfold focusStep2OD. rewrite (dict_at_contains _ _ _ Htracking).
    cbn [negb]. step Htracking. step Hcp1. step Hcoef. step Hfsl.
    step HODMin. step HODMax. step Hfirst.
    destruct (decide (infinityEnd + DONT_CALC_MAX_OVER < focusStep));
      [reflexivity|].
    step Hlast.
    destruct (decide (focusStep < nearEnd - DONT_CALC_MIN_UNDER));
      [reflexivity|].
    unfold polyfit. destruct fsl as [|s fsl'].
    { destruct cp1List; [done|discriminate Hlen]. }
    rewrite decide_True by assumption. reflexivity. }
  rewrite Hrun. unfold DONT_CALC_MAX_OVER, DONT_CALC_MIN_UNDER.
  split; [|split].
  - intros Hover. by rewrite decide_True.
  - intros Hover Hunder.
    rewrite decide_False by (by apply Qcle_not_lt). by rewrite decide_True.
  - intros Hover Hunder.
    rewrite !decide_False by (by apply Qcle_not_lt).
    destruct (polyval_returns focusStep (lstsq fsl cp1List 3)) as [v Hv].
    { intros Hnil. apply (f_equal length) in Hnil.
      rewrite Hshape in Hnil. discriminate. }
    exists v. split; [assumption|]. step Hv.
    split; [|split; [|split]].
    + intros Hneg. assert (Hnz : v ≠ 0) by (intros ->; qc_order).
      rewrite np_div_nonzero by assumption. cbn [mbind res_bind].
      by rewrite decide_True by (by apply Qc_inv_neg).
    + intros Hpos Hbelow. assert (Hnz : v ≠ 0) by (intros ->; qc_order).
      rewrite np_div_nonzero by assumption. cbn [mbind res_bind].
      rewrite decide_False by (by apply Qc_inv_pos).
      by rewrite decide_True.
    + intros Hpos Habove. assert (Hnz : v ≠ 0) by (intros ->; qc_order).
      rewrite np_div_nonzero by assumption. cbn [mbind res_bind].
      rewrite decide_False by (by apply Qc_inv_pos).
      by rewrite decide_False by (by apply Qcle_not_lt).
    + intros ->. unfold np_div. by rewrite decide_True.
Qed.

Lemma focusStep2OD_object_distance_witness :
  focusStep2OD (H:=sample_numerics) sample (Qc_of_Z 5700) (Qc_of_Z 1000) 0
  = Ret (0, ERR_OD_MAX, 2, INFINITY)
  ∧ focusStep2OD (H:=sample_numerics) sample (Qc_of_Z 4000) (Qc_of_Z 1000) 0
    = Ret (0, ERR_OD_MIN, 2, INFINITY)
  ∧ focusStep2OD (H:=sample_numerics) sample (Qc_of_Z 5400) (Qc_of_Z 1000) 0
    = Ret (Qc_of_Z 20, OK, 2, INFINITY).
Proof.
  assert (Hcases : ∀ focusStep,
    (Qc_of_Z 5500 + 0 + Qc_of_Z 100 < focusStep →
     focusStep2OD (H:=sample_numerics) sample focusStep (Qc_of_Z 1000) 0
     = Ret (0, ERR_OD_MAX, 2, INFINITY))
    ∧ (focusStep ≤ Qc_of_Z 5500 + 0 + Qc_of_Z 100 →
       focusStep < Qc_of_Z 4500 + 0 - Qc_of_Z 400 →
       focusStep2OD (H:=sample_numerics) sample focusStep (Qc_of_Z 1000) 0
       = Ret (0, ERR_OD_MIN, 2, INFINITY))
    ∧ (focusStep ≤ Qc_of_Z 5500 + 0 + Qc_of_Z 100 →
       Qc_of_Z 4500 + 0 - Qc_of_Z 400 ≤ focusStep →
       ∃ v, polyval focusStep
              (lstsq (Numerics:=sample_numerics)
                 [Qc_of_Z 5500; Qc_of_Z 5300; Qc_of_Z 4500]
                 [0; Qc_of_Z 100; Qc_of_Z 500] 3) = Ret v
         ∧ (v < 0 →
            focusStep2OD (H:=sample_numerics) sample focusStep (Qc_of_Z 1000) 0
            = Ret (Qc_of_Z 1000 / v, ERR_OD_MAX, 2, INFINITY))
         ∧ (0 < v → Qc_of_Z 1000 / v < 2 →
            focusStep2OD (H:=sample_numerics) sample focusStep (Qc_of_Z 1000) 0
            = Ret (Qc_of_Z 1000 / v, ERR_OD_MIN, 2, INFINITY))
         ∧ (0 < v → 2 ≤ Qc_of_Z 1000 / v →
            focusStep2OD (H:=sample_numerics) sample focusStep (Qc_of_Z 1000) 0
            = Ret (Qc_of_Z 1000 / v, OK, 2, INFINITY))
         ∧ (v = 0 →
            focusStep2OD (H:=sample_numerics) sample focusStep (Qc_of_Z 1000) 0
            = Raise NonFinite))).
  { intros focusStep.
    apply (focusStep2OD_object_distance (H:=sample_numerics) sample
             {[ "cp1" := nums [0; Qc_of_Z 100; Qc_of_Z 500];
                "coef" := PList (nums <$> [[Qc_of_Z 5000; dec 1 2];
                                           [Qc_of_Z 4800; dec 1 2];
                                           [Qc_of_Z 4000; dec 1 2]]) ]}
             [0; Qc_of_Z 100; Qc_of_Z 500]
             [[Qc_of_Z 5000; dec 1 2]; [Qc_of_Z 4800; dec 1 2];
              [Qc_of_Z 4000; dec 1 2]]
             [Qc_of_Z 5500; Qc_of_Z 5300; Qc_of_Z 4500]
             [Qc_of_Z 5000; dec 1 2] [Qc_of_Z 4000; dec 1 2]
             focusStep (Qc_of_Z 1000) 0 (Qc_of_Z 5500) (Qc_of_Z 4500)).
    - exact sample_lstsq_shape.
    - reflexivity.
    - evaluate.
    - evaluate.
    - discriminate.
    - evaluate.
    - evaluate.
    - evaluate.
    - evaluate.
    - evaluate.
    - evaluate.
    - evaluate. }
  split; [|split].
  - apply (Hcases (Qc_of_Z 5700)). evaluate.
  - apply (Hcases (Qc_of_Z 4000)); evaluate.
  - destruct (Hcases (Qc_of_Z 5400)) as (_ & _ & Hfit).
    destruct Hfit as (v & Hv & _ & _ & HOK & _); [evaluate|evaluate|].
    assert (Hvalue : v = Qc_of_Z 50).
    { assert (Hfifty : polyval (Qc_of_Z 5400)
                (lstsq (Numerics:=sample_numerics)
                   [Qc_of_Z 5500; Qc_of_Z 5300; Qc_of_Z 4500]
                   [0; Qc_of_Z 100; Qc_of_Z 500] 3) = Ret (Qc_of_Z 50))
        by evaluate.
      rewrite Hfifty in Hv. by injection Hv. }
    subst v. rewrite HOK; [|evaluate|evaluate]. f_equal. f_equal. f_equal.
    f_equal. evaluate.
Defined.

(** ** The object distance zero *)

(** C9. On readable tracking data on which the interpolation returns,
    [OD2FocusStep] returns exactly for an object distance that is not
    zero: at zero the quotient [1000 / OD], which has no test before it,
    raises [ZeroDivisionError]. [ODFL2FocusStep] and [AOV2MotorSteps] pass
    the object distance on: where the zoom step is found,
    [ODFL2FocusStep] returns exactly for an object distance that is not
    zero, and so does [AOV2MotorSteps] for an object distance that is not
    negative. *)
Theorem OD2FocusStep_object_distance (self : calculations)
    (tracking : gmap string pyval) (coef : list (list Qc)) (cp1 : list Qc)
    (OD zoomStep BFL focusStepMax : Qc) :
  dict_at (calData self) "tracking" = Ret tracking →
  mat_at tracking "coef" = Ret coef →
  vec_at tracking "cp1" = Ret cp1 →
  num_at (calData self) "focusSteps" = Ret focusStepMax →
  (OD ≠ 0 → returns (interpolate coef cp1 (Qc_of_Z 1000 / OD) zoomStep)) →
  (OD = 0 → OD2FocusStep self OD zoomStep BFL = Raise ZeroDivisionError)
  ∧ (returns (OD2FocusStep self OD zoomStep BFL) ↔ OD ≠ 0)
  ∧ (∀ FL err, FL2ZoomStep self FL = Ret (zoomStep, err) →
       (returns (ODFL2FocusStep self OD FL BFL) ↔ OD ≠ 0))
  ∧ (∀ d AOV IH s FLValue err,
       calData self !! "dist" = Some d →
       AOV2MotorSteps self AOV IH (PStr s) BFL
       = Ret (0, zoomStep, FLValue, err) →
       ¬ OD < 0 →
       (returns (AOV2MotorSteps self AOV IH (PNum OD) BFL) ↔ OD ≠ 0)).
Proof.
  intros Htracking Hcoef Hcp1 Hmax Hinterpolate.
  assert (Ht : ∃ t, calData self !! "tracking" = Some t).
  { unfold dict_at, subscript in Htracking.
    destruct (calData self !! "tracking") as [t|]; [by exists t|discriminate]. }
  destruct Ht as [t Ht].
  assert (Hzero : OD = 0 →
            OD2FocusStep self OD zoomStep BFL = Raise ZeroDivisionError).
  { intros ->. by apply (OD2FocusStep_zero self t). }
  assert (Hiff : returns (OD2FocusStep self OD zoomStep BFL) ↔ OD ≠ 0).
  { split.
    - intros [r Hr] HOD. rewrite (Hzero HOD) in Hr. discriminate.
    - intros HOD. destruct (Hinterpolate HOD) as [v Hv].
      unfold OD2FocusStep. rewrite (dict_at_contains _ _ _ Htracking).
      cbn [negb]. rewrite (py_div_nonzero _ _ HOD). cbn [mbind res_bind].
      step Htracking. step Hcoef. step Hcp1. step Hv. step Hmax.
      destruct (decide (int v + BFL < 0)); [by eexists|].
      destruct (decide (focusStepMax < int v + BFL)); by eexists. }
  split; [exact Hzero|]. split; [exact Hiff|]. split.
  - intros FL err HFL. unfold ODFL2FocusStep.
    destruct (decide (calData self = ∅)) as [Hempty|_].
    { rewrite Hempty, lookup_empty in Ht. discriminate. }
    step HFL. exact Hiff.
  - intros d AOV IH s FLValue err Hd Hstr Hneg.
    destruct (AOV2MotorSteps_split self AOV IH) as [found Hsplit].
    rewrite (Hsplit (PStr s) d BFL Hd) in Hstr.
    rewrite (Hsplit (PNum OD) d BFL Hd).
    destruct found as [[[z fl] e]|e]; [|discriminate].
    cbn [mbind res_bind is_str as_num] in Hstr |- *.
    injection Hstr as -> -> <-.
    rewrite decide_False by assumption.
    split.
    + intros [r Hr]. apply Hiff.
      destruct (OD2FocusStep self OD zoomStep BFL) as [[f e']|?];
        [by eexists|discriminate].
    + intros HOD. apply Hiff in HOD as [[f e'] Hf]. step Hf. by eexists.
Qed.

Lemma OD2FocusStep_object_distance_witness :
  returns (OD2FocusStep sample (Qc_of_Z 10) (Qc_of_Z 1000) 0)
  ↔ Qc_of_Z 10 ≠ 0.
Proof.
  destruct (OD2FocusStep_object_distance sample
              {[ "cp1" := nums [0; Qc_of_Z 100; Qc_of_Z 500];
                 "coef" := PList (nums <$> [[Qc_of_Z 5000; dec 1 2];
                                            [Qc_of_Z 4800; dec 1 2];
                                            [Qc_of_Z 4000; dec 1 2]]) ]}
              [[Qc_of_Z 5000; dec 1 2]; [Qc_of_Z 4800; dec 1 2];
               [Qc_of_Z 4000; dec 1 2]]
              [0; Qc_of_Z 100; Qc_of_Z 500]
              (Qc_of_Z 10) (Qc_of_Z 1000) 0 (Qc_of_Z 8000))
    as (_ & Hiff & _).
  - reflexivity.
  - evaluate.
  - evaluate.
  - evaluate.
  - intros _. eexists. vm_compute. reflexivity.
  - exact Hiff.
Defined.

(** ** The lookups of the aperture search *)

Lemma mapM_res_returns {A B} (f : A → res B) (l : list A) :
  (∀ x, x ∈ l → returns (f x)) → returns (mapM f l).
Proof.
  induction l as [|a l IH]; intros Hf; [by eexists|].
  destruct (Hf a) as [y Hy]; [left|].
  destruct IH as [k Hk]; [intros x Hx; apply Hf; by right|].
  exists (y :: k). cbn. rewrite Hy. cbn. by rewrite Hk.
Qed.

Lemma mapM_res_elem_of {A B} (f : A → res B) (l : list A) (k : list B) (y : B) :
  mapM f l = Ret k → y ∈ k → ∃ x, x ∈ l ∧ f x = Ret y.
Proof.
  intros Hk Hy. destruct (mapM_res_lookup f l k Hk) as [Hlen Hlook].
  apply list_elem_of_lookup in Hy as [i Hi].
  destruct (lookup_lt_is_Some_2 l i) as [x Hx].
  { rewrite <- Hlen. by apply lookup_lt_Some in Hi. }
  destruct (Hlook i x Hx) as (y' & Hy' & Hf).
  rewrite Hi in Hy'. injection Hy' as <-.
  exists x. split; [|assumption]. by apply list_elem_of_lookup_2 in Hx.
Qed.

Lemma sortZ_insert_perm (x : Z) (sorted : list Z) :
  sortZ_insert x sorted ≡ₚ x :: sorted.
Proof.
  induction sorted as [|y rest IH]; cbn [sortZ_insert]; [reflexivity|].
  destruct (decide (x < y)%Z); [reflexivity|].
  rewrite IH. apply Permutation_swap.
Qed.

Lemma np_sort_idx_perm (a : list Z) : np_sort_idx a ≡ₚ a.
Proof.
  unfold np_sort_idx.
  assert (Hfold : ∀ l acc,
            foldl (λ sorted x, sortZ_insert x sorted) acc l ≡ₚ l ++ acc).
  { induction l as [|x l IH]; intros acc; cbn [foldl]; [done|].
    rewrite IH, sortZ_insert_perm. cbn [app]. by rewrite Permutation_middle. }
  by rewrite Hfold, app_nil_r.
Qed.

Lemma list_index_elem_of (x : Qc) (l : list Qc) :
  x ∈ l → returns (list_index x l).
Proof.
  induction l as [|y l IH]; intros Hx; [by apply elem_of_nil in Hx|].
  cbn [list_index]. destruct (decide (y = x)) as [|Hne]; [by eexists|].
  apply elem_of_cons in Hx as [->|Hx]; [done|].
  destruct (IH Hx) as [i Hi]. rewrite Hi. by eexists.
Qed.

(** In the rationals every focal length of [closestFL] is a control
    point, and every lookup finds it. *)
Lemma NA2IrisStep_lookups_returns (cp1 : list Qc) (FL : Qc) :
  returns (NA2IrisStep_lookups cp1 FL).
Proof.
  unfold NA2IrisStep_lookups, NA2IrisStep_closestFL. cbv zeta.
  set (FLList := np_subtract cp1 FL).
  set (idx := np_sort_idx (take 2 (np_argsort (np_abs FLList)))).
  assert (Hidx : ∀ i, i ∈ idx → (0 ≤ i < Z.of_nat (length FLList))%Z).
  { intros i Hi. subst idx. rewrite np_sort_idx_perm in Hi.
    apply elem_of_take in Hi as (j & Hj & _).
    apply list_elem_of_lookup_2 in Hj.
    destruct (np_argsort_sorted (np_abs FLList)) as [Hperm _].
    rewrite Hperm in Hj. apply elem_of_seqZ in Hj.
    unfold np_abs in Hj. rewrite length_fmap in Hj. lia. }
  destruct (mapM_res_returns (getitem FLList) idx) as [selected Hselected].
  { intros i Hi. apply Hidx in Hi.
    destruct (lookup_lt_is_Some_2 FLList (Z.to_nat i)) as [v Hv]; [lia|].
    exists v. apply getitem_nonneg; [lia|assumption]. }
  rewrite Hselected. cbn [mbind res_bind].
  apply mapM_res_returns. intros f Hf. apply list_index_elem_of.
  unfold np_add in Hf. apply list_elem_of_fmap in Hf as (v & -> & Hv).
  destruct (mapM_res_elem_of _ _ _ _ Hselected Hv) as (i & Hi & Hget).
  apply getitem_lookup in Hget as (j & Hj & _).
  subst FLList. unfold np_subtract in Hj.
  rewrite list_lookup_fmap in Hj.
  destruct (cp1 !! j) as [cp|] eqn:Hcp; [|discriminate].
  cbn in Hj. injection Hj as <-.
  replace (cp - FL + FL) with cp by ring.
  by apply list_elem_of_lookup_2 in Hcp.
Qed.

(** On the lens [fine] the aperture search returns at the focal length
    20.5 in the rationals, whatever the Newton searches give. *)
Lemma NA2IrisStep_fine_returns `{Numerics} :
  returns (NA2IrisStep fine (dec 2 10) (dec 205 10)).
Proof.
  set (ap := {[ "cp1" := nums [dec 44 10; dec 132 10];
                "coef" := PList (nums <$> [[dec 1 3; dec (-1) 300];
                                           [dec 1 4; dec (-1) 400]]) ]}
             : gmap string pyval).
  assert (Hap : dict_at (calData fine) "AP" = Ret ap) by reflexivity.
  assert (Hcp1 : vec_at ap "cp1" = Ret [dec 44 10; dec 132 10]) by evaluate.
  assert (Hcoefs : mat_at ap "coef"
    = Ret [[dec 1 3; dec (-1) 300]; [dec 1 4; dec (-1) 400]]) by evaluate.
  assert (Hclosest : NA2IrisStep_closestFL [dec 44 10; dec 132 10] (dec 205 10)
    = Ret [dec 44 10; dec 132 10]) by evaluate.
  assert (Hidx0 : list_index (dec 44 10) [dec 44 10; dec 132 10] = Ret 0%Z)
    by evaluate.
  assert (Hidx1 : list_index (dec 132 10) [dec 44 10; dec 132 10] = Ret 1%Z)
    by evaluate.
  assert (Hmax0 : polyval 0 [dec 1 3; dec (-1) 300] = Ret (dec 1 3))
    by evaluate.
  assert (Hmax1 : polyval 0 [dec 1 4; dec (-1) 400] = Ret (dec 1 4))
    by evaluate.
  assert (Hsteps : num_at (calData fine) "irisSteps" = Ret (Qc_of_Z 75))
    by evaluate.
  assert (Hbelow0 : dec 2 10 < dec 1 3) by evaluate.
  assert (Hbelow1 : dec 2 10 < dec 1 4) by evaluate.
  assert (Hdistinct : dec 132 10 - dec 44 10 ≠ 0) by evaluate.
  unfold NA2IrisStep. rewrite (dict_at_contains _ _ _ Hap). cbn [negb].
  step Hap. step Hcp1. step Hclosest.
  cbn [foldM]. unfold NA2IrisStep_body.
  step Hap. step Hcp1. step Hidx0. step Hcoefs.
  rewrite (getitem_0 [dec 1 3; dec (-1) 300]). cbn [mbind res_bind].
  step Hmax0. rewrite decide_True by assumption.
  assert (Hfirst : ∃ err0 s0,
    match newton [dec 1 3; dec (-1) 300] (dec 2 10) with
    | Some stepValue => Ret (OK, [] ++ [stepValue])
    | None => stepValue ← num_at (calData fine) "irisSteps";
              Ret (ERR_NA_MIN, [] ++ [stepValue])
    end = Ret (err0, [s0])).
  { destruct (newton _ _) as [s0|]; [by eexists _, _|].
    step Hsteps. by eexists _, _. }
  destruct Hfirst as (err0 & s0 & ->). cbn [mbind res_bind].
  step Hidx1.
  rewrite (getitem_1 [dec 1 3; dec (-1) 300] [dec 1 4; dec (-1) 400]).
  cbn [mbind res_bind]. step Hmax1. rewrite decide_True by assumption.
  assert (Hsecond : ∃ err1 s1,
    match newton [dec 1 4; dec (-1) 400] (dec 2 10) with
    | Some stepValue => Ret (err0, [s0] ++ [stepValue])
    | None => stepValue ← num_at (calData fine) "irisSteps";
              Ret (ERR_NA_MIN, [s0] ++ [stepValue])
    end = Ret (err1, [s0; s1])).
  { destruct (newton _ _) as [s1|]; [by eexists _, _|].
    step Hsteps. by eexists _, _. }
  destruct Hsecond as (err1 & s1 & ->). cbn [mbind res_bind].
  rewrite !getitem_0, !getitem_1. cbn [mbind res_bind].
  rewrite decide_False by assumption. by eexists.
Qed.

(** C10. In the rationals the lookups of [NA2IrisStep] are total, and
    on the lens [fine], with the two control points 4.4 and 13.2,
    [NA2IrisStep] returns at the focal length 20.5, whatever the Newton
    searches give. In binary64 the focal length that is recomputed from the
    control point 4.4 at 20.5 is 4.399999999999999, which is not in the
    calibration list: the first lookup raises [ValueError]. *)
Theorem NA2IrisStep_lookup_binary64 :
  (∀ cp1 FL, returns (NA2IrisStep_lookups cp1 FL))
  ∧ NA2IrisStep_lookups [dec 44 10; dec 132 10] (dec 205 10) = Ret [0; 1]%Z
  ∧ (∀ H : Numerics, returns (NA2IrisStep fine (dec 2 10) (dec 205 10)))
  ∧ NA2IrisStep_closestFL_binary64 [binary64_4_4; binary64_13_2] binary64_20_5
    = Ret [0x1.1999999999998p+2%float; binary64_13_2]
  ∧ NA2IrisStep_lookups_binary64 [binary64_4_4; binary64_13_2] binary64_20_5
    = Raise ValueError.
Proof.
  split; [exact NA2IrisStep_lookups_returns|].
  split; [evaluate|]. split; [exact @NA2IrisStep_fine_returns|].
  split; vm_compute; reflexivity.
Qed.
